(** * Systematic absences and reflection conditions (groups_gemmi.py)

    A shallow embedding of [is_reflection_absent] and [analyze_zone].

    Numbers.  Miller indices and the entries of a gemmi operation are
    integers ([Z]).  The script divides them by [gemmi.Op.DEN] and compares
    the results with numpy's tolerance tests; here those quotients are exact
    rationals ([Q]) and the tolerance tests are numpy's formula
    [|a - b| <= atol + rtol * |b|] with numpy's default [rtol] and [atol],
    evaluated exactly.  Binary64 rounding error is not modelled. *)

From Stdlib Require Import ZArith QArith Qabs Qround Lia Lqa.
From stdpp Require Import base gmap sets strings sorting list.

Open Scope Z_scope.

(** ** numpy helpers *)

Module Np.

(** Defaults of [np.isclose] and [np.allclose]. *)
Definition rtol : Q := 1 # 100000.
Definition atol : Q := 1 # 100000000.

(** [np.isclose(a, b)]: [|a - b| <= atol + rtol * |b|]. *)
Definition isclose (a b : Q) : bool :=
  Qle_bool (Qabs (a - b)) (atol + rtol * Qabs b).

(** [np.allclose] on two vectors of length three. *)
Definition allclose (a b : Q * Q * Q) : bool :=
  let '(a1, a2, a3) := a in
  let '(b1, b2, b3) := b in
  isclose a1 b1 && isclose a2 b2 && isclose a3 b3.

(** [np.round]: the nearest integer, ties going to the even one. *)
Definition round (q : Q) : Q :=
  let f := Qfloor q in
  let r := (q - inject_Z f)%Q in
  match (r ?= 1 # 2)%Q with
  | Lt => inject_Z f
  | Gt => inject_Z (f + 1)
  | Eq => if Z.even f then inject_Z f else inject_Z (f + 1)
  end.

(** [np.array(v) / d] for an integer vector. *)
Definition vec_div (v : Z * Z * Z) (d : Z) : Q * Q * Q :=
  let '(x, y, z) := v in
  ((inject_Z x / inject_Z d)%Q, (inject_Z y / inject_Z d)%Q,
   (inject_Z z / inject_Z d)%Q).

(** [np.array(m) / d] for an integer 3x3 matrix given by its rows. *)
Definition mat_div (m : (Z * Z * Z) * (Z * Z * Z) * (Z * Z * Z)) (d : Z)
  : (Q * Q * Q) * (Q * Q * Q) * (Q * Q * Q) :=
  let '(r1, r2, r3) := m in (vec_div r1 d, vec_div r2 d, vec_div r3 d).

(** The integer vector seen as a float vector. *)
Definition of_ints (v : Z * Z * Z) : Q * Q * Q :=
  let '(x, y, z) := v in (inject_Z x, inject_Z y, inject_Z z).

(** [np.dot(v, w)]. *)
Definition dot (v : Z * Z * Z) (w : Q * Q * Q) : Q :=
  let '(x, y, z) := v in
  let '(w1, w2, w3) := w in
  (inject_Z x * w1 + inject_Z y * w2 + inject_Z z * w3)%Q.

(** [v @ m]: row vector times matrix. *)
Definition vecmat (v : Z * Z * Z)
    (m : (Q * Q * Q) * (Q * Q * Q) * (Q * Q * Q)) : Q * Q * Q :=
  let '(x, y, z) := v in
  let '((m11, m12, m13), (m21, m22, m23), (m31, m32, m33)) := m in
  ((inject_Z x * m11 + inject_Z y * m21 + inject_Z z * m31)%Q,
   (inject_Z x * m12 + inject_Z y * m22 + inject_Z z * m32)%Q,
   (inject_Z x * m13 + inject_Z y * m23 + inject_Z z * m33)%Q).

End Np.

(** ** gemmi operations *)

(** [gemmi.Op.DEN], the common denominator of an operation's entries. *)
Definition DEN : Z := 24.

(** A [gemmi.Op]: integer rotation (rows) and translation, both over [DEN]. *)
Record Op := mkOp {
  rot : (Z * Z * Z) * (Z * Z * Z) * (Z * Z * Z);
  tran : Z * Z * Z
}.

(** The identity operation. *)
Definition identity_rot : (Z * Z * Z) * (Z * Z * Z) * (Z * Z * Z) :=
  ((DEN, 0, 0), (0, DEN, 0), (0, 0, DEN)).
Definition identity_op : Op := mkOp identity_rot (0, 0, 0).

(** ** is_reflection_absent *)

Fixpoint is_reflection_absent (gemmi_ops : list Op) (h k l : Z) : bool :=
  let h_vec := (h, k, l) in
  match gemmi_ops with
  | [] => false
  | op :: rest =>
      let rot_frac := Np.mat_div (rot op) DEN in
      let trans_frac := Np.vec_div (tran op) DEN in
      if Np.allclose (Np.vecmat h_vec rot_frac) (Np.of_ints h_vec) then
        let ht := Np.dot h_vec trans_frac in
        if negb (Np.isclose ht (Np.round ht)) then true
        else is_reflection_absent rest h k l
      else is_reflection_absent rest h k l
  end.

(** ** analyze_zone *)

(** A reflection [(h, k, l)]. *)
Definition refl : Type := Z * Z * Z.

(** Python's [range(lo, hi)]. *)
Definition range (lo hi : Z) : list Z := seqZ lo (hi - lo).

(** Python's [sorted] on strings: code-point lexicographic order. *)
Definition str_le (a b : string) : Prop := Is_true (String.leb a b).
Definition sorted (l : list string) : list string := merge_sort str_le l.

(** [conditions.add(c)] and [conditions.discard(c)] on a Python set. *)
Definition add (c : string) (conditions : gset string) : gset string :=
  {[ c ]} ∪ conditions.
Definition discard (c : string) (conditions : gset string) : gset string :=
  conditions ∖ {[ c ]}.

(** [all(x % m == 0 for x in xs)]. *)
Definition all_mod (m : Z) (xs : list Z) : bool :=
  forallb (fun x => x mod m =? 0) xs.

(** [all((a*x + b*y) % m == 0 for x, y in zip(xs, ys))]. *)
Definition all_mod2 (a b m : Z) (xs ys : list Z) : bool :=
  forallb (fun '(x, y) => (a * x + b * y) mod m =? 0) (combine xs ys).

(** The candidate reflections of a zone (lines 61-87). *)
Definition test_refs (zone_type : string) (max_index : Z) : list refl :=
  let h_range := range (- max_index / 2) max_index in
  let k_range := range (- max_index / 2) max_index in
  let l_range := range (- max_index / 2) max_index in
  if (zone_type =? "hkl")%string then
    h ← h_range; k ← k_range; l ← l_range;
    if negb ((h =? 0) && (k =? 0) && (l =? 0)) then [(h, k, l)] else []
  else if (zone_type =? "h00")%string then
    h ← h_range; if negb (h =? 0) then [(h, 0, 0)] else []
  else if (zone_type =? "0k0")%string then
    k ← k_range; if negb (k =? 0) then [(0, k, 0)] else []
  else if (zone_type =? "00l")%string then
    l ← l_range; if negb (l =? 0) then [(0, 0, l)] else []
  else if (zone_type =? "hk0")%string then
    h ← h_range; k ← k_range;
    if negb ((h =? 0) && (k =? 0)) then [(h, k, 0)] else []
  else if (zone_type =? "h0l")%string then
    h ← h_range; l ← l_range;
    if negb ((h =? 0) && (l =? 0)) then [(h, 0, l)] else []
  else if (zone_type =? "0kl")%string then
    k ← k_range; l ← l_range;
    if negb ((k =? 0) && (l =? 0)) then [(0, k, l)] else []
  else if (zone_type =? "hhl")%string then
    h ← h_range; l ← l_range;
    if negb ((h =? 0) && (l =? 0)) then [(h, h, l)] else []
  else if (zone_type =? "hkk")%string then
    h ← h_range; k ← k_range;
    if negb ((h =? 0) && (k =? 0)) then [(h, k, k)] else []
  else if (zone_type =? "hll")%string then
    h ← h_range; l ← l_range;
    if negb ((h =? 0) && (l =? 0)) then [(h, l, l)] else []
  else [].

(** The reflections of [test_refs] that are not absent (line 93). *)
Definition present_refs (gemmi_ops : list Op) (test_refs : list refl)
  : list refl :=
  List.filter (fun ref => let '(h, k, l) := ref in
                          negb (is_reflection_absent gemmi_ops h k l))
              test_refs.

(** The general zone (lines 106-120): one [if]/[elif] chain. *)
Definition hkl_conditions (present_refs : list refl)
    (conditions : gset string) : gset string :=
  if forallb (fun '(h, k, l) => ((h + k) mod 2 =? 0) && ((k + l) mod 2 =? 0)
                                && ((h + l) mod 2 =? 0)) present_refs
  then add "h+k, k+l, h+l=2n" conditions
  else if forallb (fun '(h, k, l) => (h + k + l) mod 2 =? 0) present_refs
  then add "h+k+l=2n" conditions
  else if forallb (fun '(h, k, l) => (k + l) mod 2 =? 0) present_refs
  then add "k+l=2n" conditions
  else if forallb (fun '(h, k, l) => (h + l) mod 2 =? 0) present_refs
  then add "h+l=2n" conditions
  else if forallb (fun '(h, k, l) => (h + k) mod 2 =? 0) present_refs
  then add "h+k=2n" conditions
  else if forallb (fun '(h, k, l) => (- h + k + l) mod 3 =? 0) present_refs
  then add "-h+k+l=3n" conditions
  else if forallb (fun '(h, k, l) => (h - k + l) mod 3 =? 0) present_refs
  then add "h-k+l=3n" conditions
  else conditions.

(** The axes [h00] and [0k0] (lines 122-127), on the index named [x]. *)
Definition axis4_conditions (x4n x2n : string) (x_vals : list Z)
    (conditions : gset string) : gset string :=
  if all_mod 4 x_vals then add x4n conditions
  else if all_mod 2 x_vals then add x2n conditions
  else conditions.

(** The axis [00l] (lines 128-132). *)
Definition axis_l_conditions (l_vals : list Z)
    (conditions : gset string) : gset string :=
  if all_mod 6 l_vals then add "l=6n" conditions
  else if all_mod 4 l_vals then add "l=4n" conditions
  else if all_mod 3 l_vals then add "l=3n" conditions
  else if all_mod 2 l_vals then add "l=2n" conditions
  else conditions.

(** The planes [hk0], [h0l], [0kl] (lines 134-177): the three branches are
    the same text on the two free indices, named [x] and [y] here. *)
Definition plane_conditions (x2n_s y2n_s sum4_s sum2_s : string)
    (x_vals y_vals : list Z) (conditions : gset string) : gset string :=
  let x2n := all_mod 2 x_vals in
  let y2n := all_mod 2 y_vals in
  let conditions := if x2n then add x2n_s conditions else conditions in
  let conditions := if y2n then add y2n_s conditions else conditions in
  let conditions :=
    if all_mod2 1 1 4 x_vals y_vals then add sum4_s conditions
    else if all_mod2 1 1 2 x_vals y_vals then add sum2_s conditions
    else conditions in
  let conditions :=
    if x2n && y2n then discard sum2_s conditions else conditions in
  let conditions :=
    if bool_decide (sum4_s ∈ conditions) then discard sum2_s conditions
    else conditions in
  conditions.

(** The diagonals [hhl], [hkk], [hll] (lines 179-201): a weighted sum
    modulo 4 with weights [a], [b], the plain sum modulo 2, one index
    modulo 2, and the clean-up of that last rule. *)
Definition diag_conditions (a b : Z) (w4_s sum2_s one2_s : string)
    (x_vals y_vals one_vals : list Z) (conditions : gset string)
  : gset string :=
  let conditions :=
    if all_mod2 a b 4 x_vals y_vals then add w4_s conditions
    else conditions in
  let conditions :=
    if all_mod2 1 1 2 x_vals y_vals then add sum2_s conditions
    else conditions in
  let conditions :=
    if all_mod 2 one_vals then add one2_s conditions else conditions in
  let conditions :=
    if bool_decide (w4_s ∈ conditions) then discard one2_s conditions
    else conditions in
  conditions.

(** The rules deduced from the present reflections (lines 99-201). *)
Definition deduce (zone_type : string) (present_refs : list refl)
  : gset string :=
  let conditions : gset string := ∅ in
  let h_vals := map (fun r : refl => r.1.1) present_refs in
  let k_vals := map (fun r : refl => r.1.2) present_refs in
  let l_vals := map (fun r : refl => r.2) present_refs in
  if (zone_type =? "hkl")%string then hkl_conditions present_refs conditions
  else if (zone_type =? "h00")%string then
    axis4_conditions "h=4n" "h=2n" h_vals conditions
  else if (zone_type =? "0k0")%string then
    axis4_conditions "k=4n" "k=2n" k_vals conditions
  else if (zone_type =? "00l")%string then axis_l_conditions l_vals conditions
  else if (zone_type =? "hk0")%string then
    plane_conditions "h=2n" "k=2n" "h+k=4n" "h+k=2n" h_vals k_vals conditions
  else if (zone_type =? "h0l")%string then
    plane_conditions "h=2n" "l=2n" "h+l=4n" "h+l=2n" h_vals l_vals conditions
  else if (zone_type =? "0kl")%string then
    plane_conditions "k=2n" "l=2n" "k+l=4n" "k+l=2n" k_vals l_vals conditions
  else if (zone_type =? "hhl")%string then
    diag_conditions 2 1 "2h+l=4n" "h+l=2n" "l=2n" h_vals l_vals l_vals
                    conditions
  else if (zone_type =? "hkk")%string then
    diag_conditions 1 2 "h+2k=4n" "h+k=2n" "h=2n" h_vals k_vals h_vals
                    conditions
  else if (zone_type =? "hll")%string then
    diag_conditions 1 2 "h+2l=4n" "h+l=2n" "h=2n" h_vals l_vals h_vals
                    conditions
  else conditions.

(** The guard of line 96: every candidate present, or none. *)
Definition degenerate (present_refs test_refs : list refl) : bool :=
  (length present_refs =? length test_refs)%nat
  || match present_refs with [] => true | _ => false end.

(** [analyze_zone]; [None] is Python's [None]. *)
Definition analyze_zone (gemmi_ops : list Op) (zone_type : string)
    (max_index : Z) : option (list string) :=
  let test_refs := test_refs zone_type max_index in
  match test_refs with
  | [] => None
  | _ =>
    let present_refs := present_refs gemmi_ops test_refs in
    if degenerate present_refs test_refs then None
    else
      let conditions := deduce zone_type present_refs in
      if decide (conditions = ∅) then None
      else Some (sorted (elements conditions))
  end.

(** The default [max_index=8]. *)
Definition default_max_index : Z := 8.

(** * Properties *)

(** ** The tolerance tests *)

(** [a] is within numpy's tolerance of [b]. *)
Definition close (a b : Q) : Prop :=
  (Qabs (a - b) <= Np.atol + Np.rtol * Qabs b)%Q.

(** The rotation part of [op] leaves [(h, k, l)] invariant:
    [(h, k, l) . (R / DEN)] is close to [(h, k, l)], component by component. *)
Definition rot_invariant (op : Op) (h k l : Z) : Prop :=
  let '(x, y, z) := Np.vecmat (h, k, l) (Np.mat_div (rot op) DEN) in
  close x (inject_Z h) ∧ close y (inject_Z k) ∧ close z (inject_Z l).

(** The phase [(h, k, l) . (t / DEN)] is not close to its nearest integer. *)
Definition phase_not_integer (op : Op) (h k l : Z) : Prop :=
  let ht := Np.dot (h, k, l) (Np.vec_div (tran op) DEN) in
  ¬ close ht (Np.round ht).

(** [op] makes [(h, k, l)] absent. *)
Definition triggers (op : Op) (h k l : Z) : Prop :=
  rot_invariant op h k l ∧ phase_not_integer op h k l.

(** The same test as the loop body computes it. *)
Definition triggersb (op : Op) (h k l : Z) : bool :=
  Np.allclose (Np.vecmat (h, k, l) (Np.mat_div (rot op) DEN))
              (Np.of_ints (h, k, l))
  && negb (let ht := Np.dot (h, k, l) (Np.vec_div (tran op) DEN) in
           Np.isclose ht (Np.round ht)).

Lemma isclose_spec (a b : Q) : Np.isclose a b = true ↔ close a b.
Proof. unfold Np.isclose, close. apply Qle_bool_iff. Qed.

Lemma allclose_spec (a1 a2 a3 b1 b2 b3 : Q) :
  Np.allclose (a1, a2, a3) (b1, b2, b3) = true
  ↔ close a1 b1 ∧ close a2 b2 ∧ close a3 b3.
Proof.
  unfold Np.allclose. rewrite !andb_true_iff, !isclose_spec. tauto.
Qed.

Lemma triggersb_spec (op : Op) (h k l : Z) :
  triggersb op h k l = true ↔ triggers op h k l.
Proof.
  unfold triggersb, triggers, rot_invariant, phase_not_integer.
  rewrite andb_true_iff, negb_true_iff.
  destruct (Np.vecmat _ _) as [[x y] z]. cbn [Np.of_ints].
  rewrite allclose_spec, <- not_true_iff_false, isclose_spec. tauto.
Qed.

(** One turn of the loop of [is_reflection_absent]. *)
Lemma is_reflection_absent_cons (op : Op) (rest : list Op) (h k l : Z) :
  is_reflection_absent (op :: rest) h k l
  = triggersb op h k l || is_reflection_absent rest h k l.
Proof.
  unfold triggersb. cbn [is_reflection_absent].
  destruct (Np.allclose _ _); [|reflexivity].
  cbn [andb]. destruct (negb _); reflexivity.
Qed.

Lemma is_reflection_absent_true (ops : list Op) (h k l : Z) :
  is_reflection_absent ops h k l = true
  ↔ ∃ op, op ∈ ops ∧ triggers op h k l.
Proof.
  induction ops as [|op rest IH].
  - cbn. split; [discriminate|]. intros (op & Hin & _).
    by apply elem_of_nil in Hin.
  - rewrite is_reflection_absent_cons, orb_true_iff, IH, triggersb_spec.
    split.
    + intros [Ht | (op' & Hin & Ht)].
      * exists op. split; [apply list_elem_of_here | exact Ht].
      * exists op'. split; [by apply list_elem_of_further | exact Ht].
    + intros (op' & Hin & Ht). apply elem_of_cons in Hin as [-> | Hin].
      * by left.
      * right. by exists op'.
Qed.

(** [np.round] returns an integer, and no integer is nearer. *)
Lemma round_nearest (q : Q) :
  ∃ n : Z, (Np.round q == inject_Z n)%Q
           ∧ ∀ m : Z, (Qabs (q - Np.round q) <= Qabs (q - inject_Z m))%Q.
Proof.
  pose proof (Qfloor_le q) as Hlo. pose proof (Qlt_floor q) as Hhi.
  assert (Hint : ∀ m : Z, (m <= Qfloor q)%Z ∨ (Qfloor q + 1 <= m)%Z)
    by (intros m; lia).
  assert (Hle : ∀ a b : Z, (a <= b)%Z → (inject_Z a <= inject_Z b)%Q)
    by (intros a b; rewrite <- Zle_Qle; auto).
  rewrite inject_Z_plus in Hhi. change (inject_Z 1) with 1%Q in Hhi.
  assert (Hcase : ∀ m : Z,
    (inject_Z m <= inject_Z (Qfloor q))%Q
    ∨ (inject_Z (Qfloor q) + 1 <= inject_Z m)%Q).
  { intros m. destruct (Hint m) as [H | H]; apply Hle in H.
    - by left.
    - right. rewrite inject_Z_plus in H. exact H. }
  unfold Np.round.
  destruct (Qcompare_spec (q - inject_Z (Qfloor q)) (1 # 2)) as [He | Hl | Hg].
  - destruct (Z.even (Qfloor q)).
    + exists (Qfloor q). split; [reflexivity|]. intros m.
      destruct (Hcase m); apply Qabs_case; intros; apply Qabs_case; intros; lra.
    + exists (Qfloor q + 1)%Z. split; [reflexivity|]. intros m.
      rewrite inject_Z_plus. change (inject_Z 1) with 1%Q.
      destruct (Hcase m); apply Qabs_case; intros; apply Qabs_case; intros; lra.
  - exists (Qfloor q). split; [reflexivity|]. intros m.
    destruct (Hcase m); apply Qabs_case; intros; apply Qabs_case; intros; lra.
  - exists (Qfloor q + 1)%Z. split; [reflexivity|]. intros m.
    rewrite inject_Z_plus. change (inject_Z 1) with 1%Q.
    destruct (Hcase m); apply Qabs_case; intros; apply Qabs_case; intros; lra.
Qed.

(** ** Claims on [is_reflection_absent] *)

(** C1: [is_reflection_absent ops h k l] is [true] exactly when some
    operation of [ops] both leaves [(h, k, l)] invariant under its rotation
    part, within tolerance, and has a phase [(h, k, l) . (t / DEN)] that is
    not within tolerance of its nearest integer; it is [false] exactly when
    no operation does. *)
Theorem is_reflection_absent_iff_some_op_triggers :
  ∀ (ops : list Op) (h k l : Z),
    (is_reflection_absent ops h k l = true
     ↔ ∃ op, op ∈ ops ∧ rot_invariant op h k l ∧ phase_not_integer op h k l)
    ∧ (is_reflection_absent ops h k l = false
       ↔ ¬ ∃ op, op ∈ ops ∧ rot_invariant op h k l
                 ∧ phase_not_integer op h k l).
Proof.
  intros ops h k l.
  pose proof (is_reflection_absent_true ops h k l) as H.
  unfold triggers in H. split; [exact H|].
  rewrite <- H. symmetry. apply not_true_iff_false.
Qed.

(** C9: two operation lists that are permutations of each other give the
    same answer for every reflection. *)
Theorem is_reflection_absent_permutation :
  ∀ (ops ops' : list Op) (h k l : Z),
    Permutation ops ops' →
    is_reflection_absent ops h k l = is_reflection_absent ops' h k l.
Proof.
  intros ops ops' h k l Hp.
  induction Hp as [| op l1 l2 _ IH | op1 op2 l1 | l1 l2 l3 _ IH1 _ IH2].
  - reflexivity.
  - by rewrite !is_reflection_absent_cons, IH.
  - rewrite !is_reflection_absent_cons.
    destruct (triggersb op1 h k l), (triggersb op2 h k l); reflexivity.
  - by rewrite IH1.
Qed.

(** C9 at the identity and a half translation along [a], on [(1, 0, 0)]. *)
Lemma is_reflection_absent_permutation_witness :
  Permutation [identity_op; mkOp identity_rot (12, 0, 0)]
              [mkOp identity_rot (12, 0, 0); identity_op]
  ∧ is_reflection_absent [identity_op; mkOp identity_rot (12, 0, 0)] 1 0 0
    = is_reflection_absent [mkOp identity_rot (12, 0, 0); identity_op] 1 0 0.
Proof.
  split; [apply perm_swap|].
  apply (is_reflection_absent_permutation
           [identity_op; mkOp identity_rot (12, 0, 0)]
           [mkOp identity_rot (12, 0, 0); identity_op] 1 0 0).
  apply perm_swap.
Defined.

(** ** The degenerate samples of [analyze_zone] *)

Lemma present_refs_all (ops : list Op) (T : list refl) :
  (∀ h k l, (h, k, l) ∈ T → is_reflection_absent ops h k l = false) →
  present_refs ops T = T.
Proof.
  induction T as [|[[h k] l] T IH]; intros Hall; [reflexivity|].
  cbn. rewrite (Hall h k l) by apply list_elem_of_here. cbn.
  f_equal. apply IH. intros h' k' l' Hin.
  apply Hall. by apply list_elem_of_further.
Qed.

Lemma present_refs_none (ops : list Op) (T : list refl) :
  (∀ h k l, (h, k, l) ∈ T → is_reflection_absent ops h k l = true) →
  present_refs ops T = [].
Proof.
  induction T as [|[[h k] l] T IH]; intros Hall; [reflexivity|].
  cbn. rewrite (Hall h k l) by apply list_elem_of_here. cbn.
  apply IH. intros h' k' l' Hin.
  apply Hall. by apply list_elem_of_further.
Qed.

Lemma analyze_zone_degenerate (ops : list Op) (z : string) (m : Z) :
  degenerate (present_refs ops (test_refs z m)) (test_refs z m) = true →
  analyze_zone ops z m = None.
Proof.
  intros Hd. unfold analyze_zone.
  destruct (test_refs z m); [reflexivity|]. by rewrite Hd.
Qed.

Lemma analyze_zone_all_present (ops : list Op) (z : string) (m : Z) :
  (∀ h k l, (h, k, l) ∈ test_refs z m →
            is_reflection_absent ops h k l = false) →
  analyze_zone ops z m = None.
Proof.
  intros Hall. apply analyze_zone_degenerate.
  rewrite (present_refs_all _ _ Hall). unfold degenerate.
  by rewrite Nat.eqb_refl.
Qed.

Lemma analyze_zone_none_present (ops : list Op) (z : string) (m : Z) :
  (∀ h k l, (h, k, l) ∈ test_refs z m →
            is_reflection_absent ops h k l = true) →
  analyze_zone ops z m = None.
Proof.
  intros Hall. apply analyze_zone_degenerate.
  rewrite (present_refs_none _ _ Hall). unfold degenerate.
  apply orb_true_r.
Qed.

(** Deciding a property of every candidate by running it over the list. *)
Lemma forallb_elem_of (f : refl → bool) (T : list refl) :
  forallb f T = true → ∀ h k l, (h, k, l) ∈ T → f (h, k, l) = true.
Proof.
  rewrite forallb_forall. intros Hall h k l Hin.
  apply Hall. by apply list_elem_of_In.
Qed.

(** C5: [analyze_zone] returns [None] when the candidate list is empty, when
    every candidate is present, and when no candidate is present. *)
Theorem analyze_zone_degenerate_cases :
  ∀ (ops : list Op) (z : string) (m : Z),
    (test_refs z m = [] → analyze_zone ops z m = None)
    ∧ ((∀ h k l, (h, k, l) ∈ test_refs z m →
                 is_reflection_absent ops h k l = false) →
       analyze_zone ops z m = None)
    ∧ ((∀ h k l, (h, k, l) ∈ test_refs z m →
                 is_reflection_absent ops h k l = true) →
       analyze_zone ops z m = None).
Proof.
  intros ops z m. split; [|split].
  - intros He. unfold analyze_zone. by rewrite He.
  - apply analyze_zone_all_present.
  - apply analyze_zone_none_present.
Qed.

(** C5 on three samples: an empty window ([max_index = 0]); the identity
    alone, where every candidate is present; a half translation along [a]
    on the axis [h00] with [max_index = 2], where the candidates are
    [(-1, 0, 0)] and [(1, 0, 0)] and both are absent. *)
Lemma analyze_zone_degenerate_cases_witness :
  (test_refs "hk0" 0 = [] ∧ analyze_zone [identity_op] "hk0" 0 = None)
  ∧ ((∀ h k l, (h, k, l) ∈ test_refs "h00" 8 →
               is_reflection_absent [identity_op] h k l = false)
     ∧ analyze_zone [identity_op] "h00" 8 = None)
  ∧ ((∀ h k l, (h, k, l) ∈ test_refs "h00" 2 →
               is_reflection_absent [mkOp identity_rot (12, 0, 0)] h k l
               = true)
     ∧ analyze_zone [mkOp identity_rot (12, 0, 0)] "h00" 2 = None).
Proof.
  assert (H1 : test_refs "hk0" 0 = []) by reflexivity.
  assert (H2 : ∀ h k l, (h, k, l) ∈ test_refs "h00" 8 →
               is_reflection_absent [identity_op] h k l = false).
  { intros h k l Hin.
    apply (forallb_elem_of
             (fun '(h, k, l) =>
                negb (is_reflection_absent [identity_op] h k l))
             (test_refs "h00" 8)) in Hin; [|by vm_compute].
    by apply negb_true_iff in Hin. }
  assert (H3 : ∀ h k l, (h, k, l) ∈ test_refs "h00" 2 →
               is_reflection_absent [mkOp identity_rot (12, 0, 0)] h k l
               = true).
  { intros h k l.
    apply (forallb_elem_of
             (fun '(h, k, l) =>
                is_reflection_absent [mkOp identity_rot (12, 0, 0)] h k l)
             (test_refs "h00" 2)).
    by vm_compute. }
  split; [|split].
  - split; [exact H1|].
    exact (proj1 (analyze_zone_degenerate_cases [identity_op] "hk0" 0) H1).
  - split; [exact H2|].
    exact (proj1 (proj2 (analyze_zone_degenerate_cases
                           [identity_op] "h00" 8)) H2).
  - split; [exact H3|].
    exact (proj2 (proj2 (analyze_zone_degenerate_cases
                           [mkOp identity_rot (12, 0, 0)] "h00" 2)) H3).
Defined.

(** ** The identity operation and the empty operation list *)

Lemma close_of_Qeq (a b : Q) : (a == b)%Q → close a b.
Proof.
  intros He. unfold close, Np.atol, Np.rtol.
  assert (H0 : (Qabs (a - b) == 0)%Q).
  { assert (Hd : (a - b == 0)%Q) by lra. by rewrite Hd. }
  rewrite H0. pose proof (Qabs_nonneg b). lra.
Qed.

Lemma round_comp (q q' : Q) : (q == q')%Q → Np.round q = Np.round q'.
Proof.
  intros He. unfold Np.round.
  rewrite <- (Qfloor_comp _ _ He).
  assert (Hc : ((q - inject_Z (Qfloor q) ?= 1 # 2)
                = (q' - inject_Z (Qfloor q) ?= 1 # 2))%Q)
    by (apply Qcompare_comp; [lra | reflexivity]).
  by rewrite Hc.
Qed.

Lemma identity_rot_invariant (h k l : Z) : rot_invariant identity_op h k l.
Proof.
  unfold rot_invariant. cbn.
  repeat split; apply close_of_Qeq; field; discriminate.
Qed.

Lemma identity_phase_integer (h k l : Z) :
  ¬ phase_not_integer identity_op h k l.
Proof.
  unfold phase_not_integer. cbn. intros Hn. apply Hn. clear Hn.
  set (ht := (_ + _ + _)%Q).
  assert (He : (ht == 0)%Q) by (unfold ht; field; discriminate).
  rewrite (round_comp _ _ He). apply close_of_Qeq. exact He.
Qed.

Lemma identity_never_absent (h k l : Z) :
  is_reflection_absent [identity_op] h k l = false.
Proof.
  apply not_true_iff_false. rewrite is_reflection_absent_true.
  intros (op & Hin & _ & Hp). apply list_elem_of_singleton in Hin as ->.
  by apply identity_phase_integer in Hp.
Qed.

(** C3: with the identity as the only operation, [analyze_zone] returns
    [None] for every zone and every [max_index], every candidate being
    present. *)
Theorem analyze_zone_identity_only :
  ∀ (z : string) (m : Z),
    analyze_zone [identity_op] z m = None
    ∧ present_refs [identity_op] (test_refs z m) = test_refs z m.
Proof.
  intros z m. split.
  - apply analyze_zone_all_present. intros. apply identity_never_absent.
  - apply present_refs_all. intros. apply identity_never_absent.
Qed.

(** C10: with no operation at all, no reflection is absent, and
    [analyze_zone] returns [None] for every zone and every [max_index]. *)
Theorem analyze_zone_no_operation :
  ∀ (h k l : Z) (z : string) (m : Z),
    is_reflection_absent [] h k l = false
    ∧ present_refs [] (test_refs z m) = test_refs z m
    ∧ analyze_zone [] z m = None.
Proof.
  intros h k l z m. split; [reflexivity|]. split.
  - by apply present_refs_all.
  - by apply analyze_zone_all_present.
Qed.

(** ** The candidate reflections *)

(** The window the script samples on each free index: Python parses
    [-max_index // 2] as [(-max_index) // 2]. *)
Definition in_window (m x : Z) : Prop := - m / 2 ≤ x < m.

(** The window with the lower bound [-(max_index // 2)]. *)
Definition in_floor_window (m x : Z) : Prop := - (m / 2) ≤ x < m.

Lemma elem_of_range (lo hi x : Z) : x ∈ range lo hi ↔ lo ≤ x < hi.
Proof. unfold range. rewrite elem_of_seqZ. lia. Qed.

(** One generator of a comprehension, its filter and its result. *)
Lemma elem_of_guard (b : bool) (r r' : refl) :
  r ∈ (if b then [r'] else []) ↔ b = true ∧ r = r'.
Proof.
  destruct b.
  - rewrite list_elem_of_singleton. tauto.
  - rewrite elem_of_nil. split; [tauto | intros [? _]; discriminate].
Qed.

Ltac eqb_cases :=
  repeat match goal with
    | H : context [Z.eqb ?a ?b] |- _ => destruct (Z.eqb_spec a b)
    | |- context [Z.eqb ?a ?b] => destruct (Z.eqb_spec a b)
    end;
  cbn in *.

Ltac comprehension :=
  repeat setoid_rewrite list_elem_of_bind;
  repeat setoid_rewrite elem_of_guard;
  repeat setoid_rewrite elem_of_range;
  unfold in_window; split;
  [ intros; repeat match goal with
      | H : ∃ _, _ |- _ => destruct H
      | H : _ ∧ _ |- _ => destruct H
      | H : (_, _) = (_, _) |- _ => inversion H; clear H; subst
      end; eqb_cases; try discriminate; lia
  | intros; repeat match goal with
      | H : _ ∧ _ |- _ => destruct H
      end; subst;
    repeat (eexists; split);
    only 1: (split; [| reflexivity]);
    eqb_cases; first [reflexivity | lia] ].

Ltac zone_branch := unfold test_refs; simpl (String.eqb _ _); cbv iota.

(** C4, as the code has it: the candidates of each zone are the triples
    whose free indices lie in the window from [(-max_index) // 2], which is
    minus the ceiling of [max_index / 2], inclusive, to [max_index],
    exclusive, whose other indices are tied or zero as the zone says, and
    whose free indices are not all zero. *)
Theorem test_refs_membership :
  ∀ (m h k l : Z),
    ((h, k, l) ∈ test_refs "hkl" m
     ↔ in_window m h ∧ in_window m k ∧ in_window m l
       ∧ ¬ (h = 0 ∧ k = 0 ∧ l = 0))
    ∧ ((h, k, l) ∈ test_refs "h00" m
       ↔ in_window m h ∧ k = 0 ∧ l = 0 ∧ h ≠ 0)
    ∧ ((h, k, l) ∈ test_refs "0k0" m
       ↔ in_window m k ∧ h = 0 ∧ l = 0 ∧ k ≠ 0)
    ∧ ((h, k, l) ∈ test_refs "00l" m
       ↔ in_window m l ∧ h = 0 ∧ k = 0 ∧ l ≠ 0)
    ∧ ((h, k, l) ∈ test_refs "hk0" m
       ↔ in_window m h ∧ in_window m k ∧ l = 0 ∧ ¬ (h = 0 ∧ k = 0))
    ∧ ((h, k, l) ∈ test_refs "h0l" m
       ↔ in_window m h ∧ in_window m l ∧ k = 0 ∧ ¬ (h = 0 ∧ l = 0))
    ∧ ((h, k, l) ∈ test_refs "0kl" m
       ↔ in_window m k ∧ in_window m l ∧ h = 0 ∧ ¬ (k = 0 ∧ l = 0))
    ∧ ((h, k, l) ∈ test_refs "hhl" m
       ↔ in_window m h ∧ in_window m l ∧ k = h ∧ ¬ (h = 0 ∧ l = 0))
    ∧ ((h, k, l) ∈ test_refs "hkk" m
       ↔ in_window m h ∧ in_window m k ∧ l = k ∧ ¬ (h = 0 ∧ k = 0))
    ∧ ((h, k, l) ∈ test_refs "hll" m
       ↔ in_window m h ∧ in_window m l ∧ k = l ∧ ¬ (h = 0 ∧ l = 0)).
Proof.
  intros m h k l.
  repeat match goal with |- _ ∧ _ => split end;
    zone_branch; comprehension.
Qed.

(** The two windows agree exactly when [max_index] is even or the window is
    empty anyway. *)
Lemma in_window_even (m x : Z) :
  Z.even m = true → (in_window m x ↔ in_floor_window m x).
Proof.
  intros He. apply Z.even_spec in He as [c ->].
  unfold in_window, in_floor_window.
  replace (- (2 * c)) with ((- c) * 2) by lia.
  replace (2 * c) with (c * 2) by lia.
  rewrite !Z.div_mul by lia. lia.
Qed.

(** C4, as the claim words it, fails for an odd [max_index]: with
    [max_index = 7] the axis [h00] holds [(-4, 0, 0)], below the claimed
    lower bound [-(7 // 2) = -3]. *)
Lemma test_refs_floor_window_fails :
  ¬ ((-4, 0, 0) ∈ test_refs "h00" 7
     ↔ in_floor_window 7 (-4) ∧ 0 = 0 ∧ 0 = 0 ∧ -4 ≠ 0).
Proof.
  intros [Hin _].
  assert (Hmem : (-4, 0, 0) ∈ test_refs "h00" 7).
  { apply list_elem_of_In. vm_compute. tauto. }
  destruct (Hin Hmem) as [[Hlo _] _]. vm_compute in Hlo. by apply Hlo.
Qed.

(** ** Rule tables *)

(** A rule: the condition it reports and its test on one reflection. *)
Definition rule : Type := string * (refl → bool).

(** The first rule of an ordered table that every present reflection
    passes. *)
Definition first_match (rules : list rule) (present : list refl)
  : option string :=
  fst <$> List.find (fun r : rule => forallb r.2 present) rules.

(** The tables the claims describe, in their order of precedence. *)
Definition hkl_rules : list rule :=
  [ ("h+k, k+l, h+l=2n",
      fun '(h, k, l) => ((h + k) mod 2 =? 0) && ((k + l) mod 2 =? 0)
                        && ((h + l) mod 2 =? 0));
    ("h+k+l=2n", fun '(h, k, l) => (h + k + l) mod 2 =? 0);
    ("k+l=2n", fun '(h, k, l) => (k + l) mod 2 =? 0);
    ("h+l=2n", fun '(h, k, l) => (h + l) mod 2 =? 0);
    ("h+k=2n", fun '(h, k, l) => (h + k) mod 2 =? 0);
    ("-h+k+l=3n", fun '(h, k, l) => (- h + k + l) mod 3 =? 0);
    ("h-k+l=3n", fun '(h, k, l) => (h - k + l) mod 3 =? 0) ].

Definition h00_rules : list rule :=
  [ ("h=4n", fun r => r.1.1 mod 4 =? 0); ("h=2n", fun r => r.1.1 mod 2 =? 0) ].

Definition _0k0_rules : list rule :=
  [ ("k=4n", fun r => r.1.2 mod 4 =? 0); ("k=2n", fun r => r.1.2 mod 2 =? 0) ].

Definition _00l_rules : list rule :=
  [ ("l=6n", fun r => r.2 mod 6 =? 0); ("l=4n", fun r => r.2 mod 4 =? 0);
    ("l=3n", fun r => r.2 mod 3 =? 0); ("l=2n", fun r => r.2 mod 2 =? 0) ].

(** What [analyze_zone] returns when a table decides the zone: nothing on a
    degenerate sample, otherwise the first match alone. *)
Definition table_result (rules : list rule) (present test : list refl)
  : option (list string) :=
  if degenerate present test then None
  else (fun c => [c]) <$> first_match rules present.

(** [first_match] picks a rule that holds for every present reflection and
    that no earlier rule of the table beats. *)
Lemma first_match_Some (rules : list rule) (present : list refl) (c : string) :
  first_match rules present = Some c →
  ∃ pre f post,
    rules = pre ++ (c, f) :: post
    ∧ (∀ r, r ∈ present → f r = true)
    ∧ ∀ c' f', (c', f') ∈ pre → ∃ r, r ∈ present ∧ f' r = false.
Proof.
  unfold first_match. induction rules as [|[c0 f0] rules IH]; [discriminate|].
  cbn. destruct (forallb f0 present) eqn:Hf.
  - cbn. intros [= <-]. exists [], f0, rules. split; [reflexivity|]. split.
    + intros r Hin. rewrite forallb_forall in Hf.
      apply Hf. by apply list_elem_of_In.
    + intros c' f' Hin. by apply elem_of_nil in Hin.
  - intros Hs. destruct (IH Hs) as (pre & f & post & -> & Hall & Hpre).
    exists ((c0, f0) :: pre), f, post. split; [reflexivity|].
    split; [exact Hall|]. intros c' f' Hin.
    apply elem_of_cons in Hin as [[= -> ->] | Hin]; [|by eapply Hpre].
    apply not_true_iff_false in Hf. rewrite forallb_forall in Hf.
    destruct (existsb (fun r => negb (f0 r)) present) eqn:He.
    + apply existsb_exists in He as (r & Hin & Hr).
      exists r. split; [by apply list_elem_of_In|].
      by apply negb_true_iff.
    + exfalso. apply Hf. intros r Hin.
      destruct (f0 r) eqn:Hr; [reflexivity|].
      assert (Ht : existsb (fun r => negb (f0 r)) present = true)
        by (apply existsb_exists; exists r; by rewrite Hr).
      congruence.
Qed.

Lemma first_match_None (rules : list rule) (present : list refl) :
  first_match rules present = None
  ↔ ∀ c f, (c, f) ∈ rules → forallb f present = false.
Proof.
  unfold first_match. induction rules as [|[c0 f0] rules IH].
  - cbn. split; [|reflexivity]. intros _ c f Hin.
    by apply elem_of_nil in Hin.
  - cbn. destruct (forallb f0 present) eqn:Hf.
    + cbn. split; [discriminate|]. intros Hall.
      specialize (Hall c0 f0 (list_elem_of_here _ _)). congruence.
    + rewrite IH. split.
      * intros Hall c f Hin.
        apply elem_of_cons in Hin as [[= -> ->] | Hin]; [exact Hf|].
        by eapply Hall.
      * intros Hall c f Hin. eapply Hall. by apply list_elem_of_further.
Qed.

(** ** The end of [analyze_zone] on small sets *)

Lemma finish_empty :
  (if decide ((∅ : gset string) = ∅) then None
   else Some (sorted (elements (∅ : gset string)))) = None.
Proof. by rewrite decide_True. Qed.

Lemma finish_single (c : string) :
  (if decide (add c ∅ = ∅) then None
   else Some (sorted (elements (add c ∅)))) = Some [c].
Proof.
  unfold add. rewrite (right_id_L ∅ (∪)).
  rewrite decide_False by apply non_empty_singleton_L.
  by rewrite elements_singleton.
Qed.

Lemma all_mod_map (m : Z) (g : refl → Z) (P : list refl) :
  all_mod m (map g P) = forallb (fun r => g r mod m =? 0) P.
Proof.
  unfold all_mod. induction P as [|r P IH]; [reflexivity|].
  cbn. by rewrite IH.
Qed.

Lemma analyze_zone_unfold (ops : list Op) (z : string) (m : Z) :
  analyze_zone ops z m
  = if degenerate (present_refs ops (test_refs z m)) (test_refs z m)
    then None
    else if decide (deduce z (present_refs ops (test_refs z m)) = ∅)
         then None
         else Some (sorted (elements
                      (deduce z (present_refs ops (test_refs z m))))).
Proof.
  unfold analyze_zone. destruct (test_refs z m); reflexivity.
Qed.

Ltac zone_rules :=
  unfold deduce; simpl (String.eqb _ _); cbv iota.

(** C6: on the general zone [hkl], [analyze_zone] reports at most one
    condition, the first of the table [hkl_rules] (in its order) that every
    present reflection passes; the rule battery is reached once the sample
    has both present and absent reflections. *)
Theorem analyze_zone_hkl_first_match :
  ∀ (ops : list Op) (m : Z),
    analyze_zone ops "hkl" m
    = table_result hkl_rules (present_refs ops (test_refs "hkl" m))
                   (test_refs "hkl" m).
Proof.
  intros ops m. rewrite analyze_zone_unfold. unfold table_result.
  destruct (degenerate _ _); [reflexivity|].
  zone_rules. unfold hkl_conditions, first_match, hkl_rules.
  cbn [List.find snd].
  repeat (destruct (forallb _ _);
          [cbn [fmap option_fmap option_map fst]; apply finish_single|]).
  cbn. apply finish_empty.
Qed.

(** C8: on the axes, [analyze_zone] reports at most one condition, the
    first of the zone's table of moduli (4 then 2 for [h00] and [0k0];
    6, 4, 3, 2 for [00l]) that every present index passes, and none when
    no modulus passes. *)
Theorem analyze_zone_axes_first_match :
  ∀ (ops : list Op) (m : Z),
    analyze_zone ops "h00" m
    = table_result h00_rules (present_refs ops (test_refs "h00" m))
                   (test_refs "h00" m)
    ∧ analyze_zone ops "0k0" m
      = table_result _0k0_rules (present_refs ops (test_refs "0k0" m))
                     (test_refs "0k0" m)
    ∧ analyze_zone ops "00l" m
      = table_result _00l_rules (present_refs ops (test_refs "00l" m))
                     (test_refs "00l" m).
Proof.
  intros ops m. repeat split;
    rewrite analyze_zone_unfold; unfold table_result;
    (destruct (degenerate _ _); [reflexivity|]);
    zone_rules;
    unfold axis4_conditions, axis_l_conditions, first_match,
      h00_rules, _0k0_rules, _00l_rules;
    rewrite !all_mod_map; cbn [List.find snd];
    repeat (destruct (forallb _ _);
            [cbn [fmap option_fmap option_map fst]; apply finish_single|]);
    cbn; apply finish_empty.
Qed.

Lemma table_result_at_most_one (rules : list rule) (P T : list refl)
    (cs : list string) :
  table_result rules P T = Some cs →
  ∃ c, cs = [c] ∧ first_match rules P = Some c.
Proof.
  unfold table_result. destruct (degenerate P T); [discriminate|].
  destruct (first_match rules P) as [c|]; [|discriminate].
  intros [= <-]. by exists c.
Qed.

(** ** The plane zones *)

(** The conditions [analyze_zone] returns are those of the deduced set. *)
Lemma analyze_zone_Some_elem (ops : list Op) (z : string) (m : Z)
    (cs : list string) :
  analyze_zone ops z m = Some cs →
  ∀ c, c ∈ cs ↔ c ∈ deduce z (present_refs ops (test_refs z m)).
Proof.
  rewrite analyze_zone_unfold.
  destruct (degenerate _ _); [discriminate|].
  destruct (decide _); [discriminate|]. intros [= <-] c.
  unfold sorted. by rewrite merge_sort_Permutation, elem_of_elements.
Qed.

(** The clean-up of a plane zone: the sum rule modulo 2 never stays with
    both parities, nor with the sum rule modulo 4. *)
Lemma plane_conditions_clean (x2n_s y2n_s sum4_s sum2_s : string)
    (xs ys : list Z) :
  x2n_s ≠ y2n_s → x2n_s ≠ sum4_s → x2n_s ≠ sum2_s →
  y2n_s ≠ sum4_s → y2n_s ≠ sum2_s →
  let S := plane_conditions x2n_s y2n_s sum4_s sum2_s xs ys ∅ in
  ¬ (sum2_s ∈ S ∧ x2n_s ∈ S ∧ y2n_s ∈ S) ∧ ¬ (sum2_s ∈ S ∧ sum4_s ∈ S).
Proof.
  intros Hxy Hx4 Hx2 Hy4 Hy2. unfold plane_conditions, add, discard.
  destruct (all_mod 2 xs), (all_mod 2 ys), (all_mod2 1 1 4 xs ys),
    (all_mod2 1 1 2 xs ys); cbn [andb];
    case_bool_decide;
    rewrite ?elem_of_difference, ?elem_of_union, ?elem_of_singleton,
      ?elem_of_empty in *;
    intuition congruence.
Qed.

(** Operation lists whose absences leave exactly the reflections with both
    free indices of a plane even. *)
Definition half_a : Op := mkOp identity_rot (12, 0, 0).
Definition half_b : Op := mkOp identity_rot (0, 12, 0).
Definition half_c : Op := mkOp identity_rot (0, 0, 12).

(** C7: on the planes [hk0], [h0l], [0kl], whatever the operations, the
    list returned by [analyze_zone] never holds the sum rule modulo 2
    together with both single-index parities, nor together with the sum
    rule modulo 4; both single-index parities can be returned together. *)
Theorem analyze_zone_plane_no_redundancy :
  ∀ (ops : list Op) (m : Z) (cs : list string),
    (analyze_zone ops "hk0" m = Some cs →
       ¬ ("h+k=2n" ∈ cs ∧ "h=2n" ∈ cs ∧ "k=2n" ∈ cs)
       ∧ ¬ ("h+k=2n" ∈ cs ∧ "h+k=4n" ∈ cs))
    ∧ (analyze_zone ops "h0l" m = Some cs →
         ¬ ("h+l=2n" ∈ cs ∧ "h=2n" ∈ cs ∧ "l=2n" ∈ cs)
         ∧ ¬ ("h+l=2n" ∈ cs ∧ "h+l=4n" ∈ cs))
    ∧ (analyze_zone ops "0kl" m = Some cs →
         ¬ ("k+l=2n" ∈ cs ∧ "k=2n" ∈ cs ∧ "l=2n" ∈ cs)
         ∧ ¬ ("k+l=2n" ∈ cs ∧ "k+l=4n" ∈ cs))
    ∧ analyze_zone [identity_op; half_a; half_b] "hk0" default_max_index
      = Some ["h=2n"; "k=2n"]
    ∧ analyze_zone [identity_op; half_a; half_c] "h0l" default_max_index
      = Some ["h=2n"; "l=2n"]
    ∧ analyze_zone [identity_op; half_b; half_c] "0kl" default_max_index
      = Some ["k=2n"; "l=2n"].
Proof.
  intros ops m cs. repeat match goal with |- _ ∧ _ => split end.
  1-3: intros Hs; pose proof (analyze_zone_Some_elem _ _ _ _ Hs) as He;
    rewrite !He; clear Hs He; zone_rules;
    apply plane_conditions_clean; discriminate.
  all: vm_compute; reflexivity.
Qed.

(** ** The example of the spec *)

(** The centring translation [(1/2, 1/2, 0)]. *)
Definition half_ab : Op := mkOp identity_rot (12, 12, 0).

(** C2: for the identity and the translation [(1/2, 1/2, 0)], the zone
    [hk0] sampled with [max_index = 8] yields the single condition
    ["h+k=2n"], hence neither ["h=2n"] nor ["k=2n"]. *)
Theorem analyze_zone_hk0_C_centring :
  analyze_zone [identity_op; half_ab] "hk0" 8 = Some ["h+k=2n"]
  ∧ ∀ cs, analyze_zone [identity_op; half_ab] "hk0" 8 = Some cs →
          ("h=2n" ∉ cs) ∧ ("k=2n" ∉ cs).
Proof.
  assert (Hv : analyze_zone [identity_op; half_ab] "hk0" 8
               = Some ["h+k=2n"]) by (vm_compute; reflexivity).
  split; [exact Hv|]. rewrite Hv. intros cs [= <-].
  rewrite !list_elem_of_singleton. split; discriminate.
Qed.

(** * Further properties of [is_reflection_absent] *)

(** X1: Concatenating operation lists is the disjunction of their verdicts. *)
Lemma is_reflection_absent_app (ops ops' : list Op) (h k l : Z) :
  is_reflection_absent (ops ++ ops') h k l
  = is_reflection_absent ops h k l || is_reflection_absent ops' h k l.
Proof.
  induction ops as [|op ops IH]; [reflexivity|].
  rewrite <- app_comm_cons, !is_reflection_absent_cons, IH.
  apply orb_assoc.
Qed.

Lemma absent_same_elements (ops ops' : list Op) (h k l : Z) :
  (∀ op, op ∈ ops ↔ op ∈ ops') →
  is_reflection_absent ops h k l = is_reflection_absent ops' h k l.
Proof.
  intros Hs.
  destruct (is_reflection_absent ops h k l) eqn:H1;
    destruct (is_reflection_absent ops' h k l) eqn:H2; try reflexivity.
  - apply is_reflection_absent_true in H1 as (op & Hin & Ht).
    apply not_true_iff_false in H2. exfalso. apply H2.
    apply is_reflection_absent_true. exists op. by rewrite <- Hs.
  - apply is_reflection_absent_true in H2 as (op & Hin & Ht).
    apply not_true_iff_false in H1. exfalso. apply H1.
    apply is_reflection_absent_true. exists op. by rewrite Hs.
Qed.

(** X2: Only the set of operations matters: order and repetitions do not. *)
Theorem is_reflection_absent_same_elements :
  ∀ (ops ops' : list Op) (h k l : Z),
    (∀ op, op ∈ ops ↔ op ∈ ops') →
    is_reflection_absent ops h k l = is_reflection_absent ops' h k l.
Proof. intros ops ops' h k l. apply absent_same_elements. Qed.

Lemma is_reflection_absent_same_elements_witness :
  (∀ op, op ∈ [half_a; identity_op; half_a] ↔ op ∈ [identity_op; half_a])
  ∧ is_reflection_absent [half_a; identity_op; half_a] 1 0 0
    = is_reflection_absent [identity_op; half_a] 1 0 0.
Proof.
  assert (Hs : ∀ op, op ∈ [half_a; identity_op; half_a]
                     ↔ op ∈ [identity_op; half_a]).
  { intros op. rewrite !elem_of_cons, !elem_of_nil. tauto. }
  split; [exact Hs|].
  exact (is_reflection_absent_same_elements _ _ 1 0 0 Hs).
Defined.

Lemma round_inject_Z (n : Z) : Np.round (inject_Z n) = inject_Z n.
Proof.
  unfold Np.round. rewrite Qfloor_Z.
  destruct (Qcompare_spec (inject_Z n - inject_Z n) (1 # 2)); [lra | reflexivity | lra].
Qed.

(** An operation whose translation is a whole lattice vector never makes a
    reflection absent, whatever its rotation part. *)
Lemma lattice_translation_phase_integer (op : Op) (a b c h k l : Z) :
  tran op = (DEN * a, DEN * b, DEN * c) →
  ¬ phase_not_integer op h k l.
Proof.
  intros Ht Hn. apply Hn. clear Hn. rewrite Ht. cbn.
  set (ht := (_ + _ + _)%Q).
  assert (He : (ht == inject_Z (h * a + k * b + l * c))%Q).
  { unfold ht. rewrite !inject_Z_plus, !inject_Z_mult. field. discriminate. }
  rewrite (round_comp _ _ He), round_inject_Z. by apply close_of_Qeq.
Qed.

Lemma is_reflection_absent_lattice_translations (ops : list Op) (h k l : Z) :
  (∀ op, op ∈ ops → ∃ a b c, tran op = (DEN * a, DEN * b, DEN * c)) →
  is_reflection_absent ops h k l = false.
Proof.
  intros Hl. apply not_true_iff_false. rewrite is_reflection_absent_true.
  intros (op & Hin & _ & Hp). destruct (Hl op Hin) as (a & b & c & Ht).
  by apply (lattice_translation_phase_integer op a b c h k l Ht).
Qed.

(** X3: C3 for a whole class of groups: when every operation's translation is a
    lattice vector, no reflection is absent and no zone gets a condition. *)
Theorem lattice_translations_no_conditions :
  ∀ (ops : list Op),
    (∀ op, op ∈ ops → ∃ a b c, tran op = (DEN * a, DEN * b, DEN * c)) →
    ∀ (z : string) (m h k l : Z),
      is_reflection_absent ops h k l = false ∧ analyze_zone ops z m = None.
Proof.
  intros ops Hl z m h k l. split.
  - by apply is_reflection_absent_lattice_translations.
  - apply analyze_zone_all_present. intros.
    by apply is_reflection_absent_lattice_translations.
Qed.

(** A fourfold rotation about [c] with a lattice translation. *)
Definition rot4_c : Op :=
  mkOp ((0, - DEN, 0), (DEN, 0, 0), (0, 0, DEN)) (DEN, 0, - 2 * DEN).

Lemma lattice_translations_no_conditions_witness :
  (∀ op, op ∈ [identity_op; rot4_c] →
         ∃ a b c, tran op = (DEN * a, DEN * b, DEN * c))
  ∧ is_reflection_absent [identity_op; rot4_c] 0 0 1 = false
  ∧ analyze_zone [identity_op; rot4_c] "00l" 8 = None.
Proof.
  assert (Hl : ∀ op, op ∈ [identity_op; rot4_c] →
                     ∃ a b c, tran op = (DEN * a, DEN * b, DEN * c)).
  { intros op Hin. apply elem_of_cons in Hin as [-> | Hin].
    - by exists 0, 0, 0.
    - apply list_elem_of_singleton in Hin as ->. by exists 1, 0, (-2). }
  split; [exact Hl|].
  exact (lattice_translations_no_conditions _ Hl "00l" 8 0 0 1).
Defined.

(** X4: The origin of reciprocal space is never absent. *)
Theorem is_reflection_absent_origin :
  ∀ (ops : list Op), is_reflection_absent ops 0 0 0 = false.
Proof.
  intros ops. apply not_true_iff_false. rewrite is_reflection_absent_true.
  intros (op & _ & _ & Hp). apply Hp. clear Hp.
  destruct (tran op) as [[t1 t2] t3]. cbn.
  set (ht := (_ + _ + _)%Q).
  assert (He : (ht == inject_Z 0)%Q) by (unfold ht; field; discriminate).
  rewrite (round_comp _ _ He), round_inject_Z. by apply close_of_Qeq.
Qed.

(** ** Friedel pairs *)

Lemma Qfloor_unique (n : Z) (x : Q) :
  (inject_Z n <= x)%Q → (x < inject_Z n + 1)%Q → Qfloor x = n.
Proof.
  intros Hlo Hhi.
  pose proof (Qfloor_le x) as Hf. pose proof (Qlt_floor x) as Hg.
  rewrite inject_Z_plus in Hg. change (inject_Z 1) with 1%Q in Hg.
  assert (H1 : (inject_Z (Qfloor x) < inject_Z (n + 1))%Q)
    by (rewrite inject_Z_plus; change (inject_Z 1) with 1%Q; lra).
  assert (H2 : (inject_Z n < inject_Z (Qfloor x + 1))%Q)
    by (rewrite inject_Z_plus; change (inject_Z 1) with 1%Q; lra).
  rewrite <- Zlt_Qlt in H1, H2. lia.
Qed.

Lemma round_opp (q : Q) : (Np.round (- q) == - Np.round q)%Q.
Proof.
  pose proof (Qfloor_le q) as Hlo. pose proof (Qlt_floor q) as Hhi.
  rewrite inject_Z_plus in Hhi. change (inject_Z 1) with 1%Q in Hhi.
  set (f := Qfloor q) in *.
  destruct (Qeq_dec q (inject_Z f)) as [Hi | Hni].
  - rewrite (round_comp q (inject_Z f) Hi).
    assert (Ho : (- q == inject_Z (- f))%Q) by (rewrite inject_Z_opp; lra).
    rewrite (round_comp _ _ Ho), !round_inject_Z, inject_Z_opp. reflexivity.
  - assert (Hf' : Qfloor (- q) = - f - 1).
    { apply Qfloor_unique.
      - unfold Z.sub. rewrite inject_Z_plus, inject_Z_opp.
        change (inject_Z (- (1))) with (- (1))%Q. lra.
      - unfold Z.sub. rewrite inject_Z_plus, inject_Z_opp.
        change (inject_Z (- (1))) with (- (1))%Q.
        assert (inject_Z f < q)%Q; [|lra].
        apply Qle_lteq in Hlo as [Hlt | He]; [exact Hlt|].
        exfalso. apply Hni. by symmetry. }
    assert (Hev : Z.even (- f - 1) = negb (Z.even f)).
    { replace (- f - 1) with (Z.pred (- f)) by lia.
      by rewrite Z.even_pred, Z.odd_opp, Z.negb_even. }
    unfold Np.round. fold f. rewrite Hf', Hev.
    assert (Hs : (inject_Z (- f - 1 + 1) == - inject_Z f)%Q)
      by (replace (- f - 1 + 1) with (- f) by lia;
          rewrite inject_Z_opp; reflexivity).
    assert (Ht : (inject_Z (- f - 1) == - inject_Z (f + 1))%Q)
      by (replace (- f - 1) with (- (f + 1)) by lia;
          rewrite inject_Z_opp; reflexivity).
    assert (Hr : (- q - inject_Z (- f - 1) == 1 - (q - inject_Z f))%Q).
    { unfold Z.sub. rewrite inject_Z_plus, inject_Z_opp.
      change (inject_Z (- (1))) with (- (1))%Q. lra. }
    destruct (Qcompare_spec (q - inject_Z f) (1 # 2));
      destruct (Qcompare_spec (- q - inject_Z (- f - 1)) (1 # 2));
      try lra; try (destruct (Z.even f); cbn [negb]); assumption.
Qed.

Lemma close_comp (a a' b b' : Q) :
  (a == a')%Q → (b == b')%Q → (close a b ↔ close a' b').
Proof. intros Ha Hb. unfold close. by rewrite Ha, Hb. Qed.

Lemma close_opp (a b : Q) : close (- a) (- b) ↔ close a b.
Proof.
  unfold close. rewrite (Qabs_opp b).
  assert (He : (- a - - b == - (a - b))%Q) by ring.
  by rewrite He, Qabs_opp.
Qed.

Lemma close_lin_opp (a b c x y z w : Q) :
  close (- a * x + - b * y + - c * z) (- w)
  ↔ close (a * x + b * y + c * z) w.
Proof.
  transitivity (close (- (a * x + b * y + c * z)) (- w));
    [apply close_comp; [ring | reflexivity] | apply close_opp].
Qed.

Lemma phase_lin_opp (a b c x y z : Q) :
  close (- a * x + - b * y + - c * z)
        (Np.round (- a * x + - b * y + - c * z))
  ↔ close (a * x + b * y + c * z) (Np.round (a * x + b * y + c * z)).
Proof.
  assert (He : (- a * x + - b * y + - c * z
                == - (a * x + b * y + c * z))%Q) by ring.
  rewrite (round_comp _ _ He).
  transitivity (close (- (a * x + b * y + c * z))
                      (- Np.round (a * x + b * y + c * z)));
    [apply close_comp; [exact He | apply round_opp] | apply close_opp].
Qed.

Lemma triggers_opp (op : Op) (h k l : Z) :
  triggers op (- h) (- k) (- l) ↔ triggers op h k l.
Proof.
  unfold triggers, rot_invariant, phase_not_integer.
  destruct op as [[[[[r11 r12] r13] [[r21 r22] r23]] [[r31 r32] r33]]
                  [[t1 t2] t3]].
  cbn. rewrite !inject_Z_opp, !close_lin_opp, phase_lin_opp. reflexivity.
Qed.

(** X5: Friedel's law for the absence test: [(h, k, l)] and [(-h, -k, -l)]
    are absent together. *)
Theorem is_reflection_absent_friedel :
  ∀ (ops : list Op) (h k l : Z),
    is_reflection_absent ops (- h) (- k) (- l)
    = is_reflection_absent ops h k l.
Proof.
  intros ops h k l. induction ops as [|op ops IH]; [reflexivity|].
  rewrite !is_reflection_absent_cons, IH. f_equal.
  pose proof (triggers_opp op h k l) as Ht.
  rewrite <- !triggersb_spec in Ht.
  destruct (triggersb op (- h) (- k) (- l)), (triggersb op h k l);
    try reflexivity; destruct Ht as [H1 H2];
    [symmetry; by apply H1 | by apply H2].
Qed.

(** * The shape of the list [analyze_zone] returns *)

Lemma string_compare_refl (s : string) : String.compare s s = Eq.
Proof.
  induction s as [|c s IH]; [reflexivity|].
  cbn. unfold Ascii.compare. by rewrite N.compare_refl.
Qed.

Lemma string_compare_lt_trans (a b c : string) :
  String.compare a b = Lt → String.compare b c = Lt →
  String.compare a c = Lt.
Proof.
  revert b c. induction a as [|x a IH]; intros [|y b] [|z c]; cbn;
    try discriminate; try reflexivity.
  unfold Ascii.compare.
  destruct (Ascii.N_of_ascii x ?= Ascii.N_of_ascii y)%N eqn:Hxy;
    destruct (Ascii.N_of_ascii y ?= Ascii.N_of_ascii z)%N eqn:Hyz;
    try discriminate; intros H1 H2.
  - apply N.compare_eq_iff in Hxy, Hyz.
    rewrite Hxy, Hyz, N.compare_refl. by eapply IH.
  - apply N.compare_eq_iff in Hxy. by rewrite Hxy, Hyz.
  - apply N.compare_eq_iff in Hyz. by rewrite <- Hyz, Hxy.
  - apply N.compare_lt_iff in Hxy, Hyz.
    assert (Hxz : (Ascii.N_of_ascii x < Ascii.N_of_ascii z)%N)
      by (eapply N.lt_trans; eassumption).
    apply N.compare_lt_iff in Hxz. by rewrite Hxz.
Qed.

#[local] Instance str_le_total : Total str_le.
Proof.
  intros a b. unfold str_le.
  destruct (String.leb_total a b) as [H | H]; rewrite H; [by left | by right].
Qed.

#[local] Instance str_le_trans : Transitive str_le.
Proof.
  intros a b c. unfold str_le, String.leb.
  destruct (String.compare a b) eqn:Hab; [| |by cbn];
    destruct (String.compare b c) eqn:Hbc; try (by cbn); intros _ _.
  - apply String.compare_eq_iff in Hab, Hbc. subst.
    by rewrite string_compare_refl.
  - apply String.compare_eq_iff in Hab. subst. by rewrite Hbc.
  - apply String.compare_eq_iff in Hbc. subst. by rewrite Hab.
  - by rewrite (string_compare_lt_trans a b c Hab Hbc).
Qed.

(** X6: What [analyze_zone] returns is never the empty list: it is [None] or a
    list without repetition, in ascending string order. *)
Theorem analyze_zone_result_sorted :
  ∀ (ops : list Op) (z : string) (m : Z) (cs : list string),
    analyze_zone ops z m = Some cs →
    cs ≠ [] ∧ NoDup cs ∧ StronglySorted str_le cs.
Proof.
  intros ops z m cs. rewrite analyze_zone_unfold.
  destruct (degenerate _ _); [discriminate|].
  destruct (decide _) as [|Hne]; [discriminate|]. intros [= <-].
  unfold sorted. split; [|split].
  - intros He. apply Hne. apply leibniz_equiv, elements_empty_inv.
    apply Permutation_nil_r. rewrite <- He.
    symmetry. apply merge_sort_Permutation.
  - rewrite merge_sort_Permutation. apply NoDup_elements.
  - apply StronglySorted_merge_sort; apply _.
Qed.

Lemma analyze_zone_result_sorted_witness :
  analyze_zone [identity_op; half_a; half_b] "hk0" 8
  = Some ["h=2n"; "k=2n"]
  ∧ ["h=2n"; "k=2n"] ≠ [] ∧ NoDup ["h=2n"; "k=2n"]
  ∧ StronglySorted str_le ["h=2n"; "k=2n"].
Proof.
  assert (Hv : analyze_zone [identity_op; half_a; half_b] "hk0" 8
               = Some ["h=2n"; "k=2n"]) by (vm_compute; reflexivity).
  split; [exact Hv|].
  exact (analyze_zone_result_sorted _ _ _ _ Hv).
Defined.

(** * The reported conditions hold on the present reflections *)

(** What a condition string says of a reflection [(h, k, l)]; [false] for
    a string that is no condition of the script. *)
Definition cond_holds (c : string) (r : refl) : bool :=
  let '(h, k, l) := r in
  if (c =? "h+k, k+l, h+l=2n")%string then
    ((h + k) mod 2 =? 0) && ((k + l) mod 2 =? 0) && ((h + l) mod 2 =? 0)
  else if (c =? "h+k+l=2n")%string then (h + k + l) mod 2 =? 0
  else if (c =? "-h+k+l=3n")%string then (- h + k + l) mod 3 =? 0
  else if (c =? "h-k+l=3n")%string then (h - k + l) mod 3 =? 0
  else if (c =? "h+k=2n")%string then (h + k) mod 2 =? 0
  else if (c =? "h+l=2n")%string then (h + l) mod 2 =? 0
  else if (c =? "k+l=2n")%string then (k + l) mod 2 =? 0
  else if (c =? "h+k=4n")%string then (h + k) mod 4 =? 0
  else if (c =? "h+l=4n")%string then (h + l) mod 4 =? 0
  else if (c =? "k+l=4n")%string then (k + l) mod 4 =? 0
  else if (c =? "2h+l=4n")%string then (2 * h + l) mod 4 =? 0
  else if (c =? "h+2k=4n")%string then (h + 2 * k) mod 4 =? 0
  else if (c =? "h+2l=4n")%string then (h + 2 * l) mod 4 =? 0
  else if (c =? "h=2n")%string then h mod 2 =? 0
  else if (c =? "h=4n")%string then h mod 4 =? 0
  else if (c =? "k=2n")%string then k mod 2 =? 0
  else if (c =? "k=4n")%string then k mod 4 =? 0
  else if (c =? "l=2n")%string then l mod 2 =? 0
  else if (c =? "l=3n")%string then l mod 3 =? 0
  else if (c =? "l=4n")%string then l mod 4 =? 0
  else if (c =? "l=6n")%string then l mod 6 =? 0
  else false.

(** Every condition of the set [S] holds on every reflection of [P]. *)
Definition sound (P : list refl) (S : gset string) : Prop :=
  ∀ c, c ∈ S → forallb (cond_holds c) P = true.

Lemma sound_empty (P : list refl) : sound P ∅.
Proof. intros c Hin. by apply not_elem_of_empty in Hin. Qed.

Lemma sound_add (P : list refl) (c : string) (S : gset string) :
  forallb (cond_holds c) P = true → sound P S → sound P (add c S).
Proof.
  intros Hc HS c' Hin. unfold add in Hin.
  apply elem_of_union in Hin as [Hin | Hin]; [|by apply HS].
  by apply elem_of_singleton in Hin as ->.
Qed.

Lemma sound_discard (P : list refl) (c : string) (S : gset string) :
  sound P S → sound P (discard c S).
Proof.
  intros HS c' Hin. unfold discard in Hin.
  apply elem_of_difference in Hin as [Hin _]. by apply HS.
Qed.

Lemma all_mod2_map (a b m : Z) (f g : refl → Z) (P : list refl) :
  all_mod2 a b m (map f P) (map g P)
  = forallb (fun r => (a * f r + b * g r) mod m =? 0) P.
Proof.
  unfold all_mod2. induction P as [|r P IH]; [reflexivity|].
  cbn. by rewrite IH.
Qed.

Lemma forallb_impl (f g : refl → bool) (P : list refl) :
  forallb f P = true → (∀ r, f r = true → g r = true) →
  forallb g P = true.
Proof.
  rewrite !forallb_forall. intros Hf Hfg r Hin. by apply Hfg, Hf.
Qed.

(** A test of the script implies the meaning of the condition it adds. *)
Ltac test_implies H :=
  eapply forallb_impl; [exact H|];
  intros [[h k] l]; cbn;
  let Hq := fresh "Hq" in
  intros Hq;
  first [ exact Hq | rewrite <- Hq; do 2 f_equal; lia ].

Ltac sound_step :=
  match goal with
  | |- sound _ ∅ => apply sound_empty
  | |- sound _ (discard _ _) => apply sound_discard
  | |- sound _ (if ?b then _ else _) =>
      let H := fresh "Ht" in
      destruct b eqn:H;
      [try (apply sound_add; [test_implies H|]) |]
  end.

Lemma deduce_sound (z : string) (P : list refl) : sound P (deduce z P).
Proof.
  unfold deduce.
  repeat match goal with
    | |- context [if String.eqb z ?s then _ else _] =>
        destruct (String.eqb z s)
    end;
    unfold hkl_conditions, axis4_conditions, axis_l_conditions,
      plane_conditions, diag_conditions;
    rewrite ?all_mod_map, ?all_mod2_map;
    repeat sound_step.
Qed.

(** X7: Every condition [analyze_zone] reports holds on every present
    reflection of the sample. *)
Theorem analyze_zone_conditions_hold :
  ∀ (ops : list Op) (z : string) (m : Z) (cs : list string),
    analyze_zone ops z m = Some cs →
    ∀ c r, c ∈ cs → r ∈ present_refs ops (test_refs z m) →
           cond_holds c r = true.
Proof.
  intros ops z m cs Hs c r Hc Hr.
  apply (analyze_zone_Some_elem _ _ _ _ Hs) in Hc.
  pose proof (deduce_sound z _ c Hc) as Hall.
  rewrite forallb_forall in Hall. apply Hall. by apply list_elem_of_In.
Qed.

Lemma analyze_zone_conditions_hold_witness :
  analyze_zone [identity_op; half_c] "hhl" 8 = Some ["l=2n"]
  ∧ ∀ c r, c ∈ ["l=2n"] →
           r ∈ present_refs [identity_op; half_c] (test_refs "hhl" 8) →
           cond_holds c r = true.
Proof.
  assert (Hv : analyze_zone [identity_op; half_c] "hhl" 8 = Some ["l=2n"])
    by (vm_compute; reflexivity).
  split; [exact Hv|].
  exact (analyze_zone_conditions_hold _ _ _ _ Hv).
Defined.

(** * [analyze_zone] and its inputs *)

Lemma present_refs_ext (ops ops' : list Op) (T : list refl) :
  (∀ h k l, is_reflection_absent ops h k l
            = is_reflection_absent ops' h k l) →
  present_refs ops T = present_refs ops' T.
Proof.
  intros He. unfold present_refs. apply filter_ext.
  intros [[h k] l]. by rewrite He.
Qed.

(** X8: [analyze_zone] depends only on which operations occur in the list. *)
Theorem analyze_zone_same_elements :
  ∀ (ops ops' : list Op) (z : string) (m : Z),
    (∀ op, op ∈ ops ↔ op ∈ ops') →
    analyze_zone ops z m = analyze_zone ops' z m.
Proof.
  intros ops ops' z m Hs. rewrite !analyze_zone_unfold.
  rewrite (present_refs_ext ops ops'); [reflexivity|].
  intros h k l. by apply absent_same_elements.
Qed.

Lemma analyze_zone_same_elements_witness :
  (∀ op, op ∈ [half_a; identity_op; half_a] ↔ op ∈ [identity_op; half_a])
  ∧ analyze_zone [half_a; identity_op; half_a] "h00" 8
    = analyze_zone [identity_op; half_a] "h00" 8.
Proof.
  assert (Hs : ∀ op, op ∈ [half_a; identity_op; half_a]
                     ↔ op ∈ [identity_op; half_a]).
  { intros op. rewrite !elem_of_cons, !elem_of_nil. tauto. }
  split; [exact Hs|].
  exact (analyze_zone_same_elements _ _ "h00" 8 Hs).
Defined.

(** The ten zone names. *)
Definition zones : list string :=
  ["hkl"; "0kl"; "h0l"; "hk0"; "hhl"; "hkk"; "hll"; "h00"; "0k0"; "00l"].

(** X9: A zone name outside the ten has no candidate, and [analyze_zone]
    returns [None] for it without complaint. *)
Theorem analyze_zone_unknown_zone :
  ∀ (ops : list Op) (z : string) (m : Z),
    z ∉ zones → test_refs z m = [] ∧ analyze_zone ops z m = None.
Proof.
  intros ops z m Hn.
  assert (He : test_refs z m = []).
  { unfold zones in Hn. unfold test_refs.
    repeat match goal with
      | |- context [String.eqb z ?s] =>
          rewrite (proj2 (String.eqb_neq z s))
            by (intros ->; apply Hn; rewrite !elem_of_cons; tauto)
      end.
    reflexivity. }
  split; [exact He|]. unfold analyze_zone. by rewrite He.
Qed.

Lemma analyze_zone_unknown_zone_witness :
  ("hh0" ∉ zones)
  ∧ test_refs "hh0" 8 = [] ∧ analyze_zone [identity_op; half_a] "hh0" 8 = None.
Proof.
  assert (Hn : "hh0" ∉ zones).
  { unfold zones. rewrite !elem_of_cons, elem_of_nil.
    intros H. repeat destruct H as [H | H]; discriminate || exact H. }
  split; [exact Hn|].
  exact (analyze_zone_unknown_zone [identity_op; half_a] "hh0" 8 Hn).
Defined.

Lemma range_empty (lo hi : Z) : hi ≤ lo → range lo hi = [].
Proof.
  intros Hle. unfold range, seqZ.
  replace (Z.to_nat (hi - lo)) with 0%nat by lia. reflexivity.
Qed.

(** X10: With [max_index <= 0] the sampling window is empty, and [analyze_zone]
    returns [None] for every zone and every operation list. *)
Theorem analyze_zone_nonpositive_max_index :
  ∀ (ops : list Op) (z : string) (m : Z),
    m ≤ 0 → test_refs z m = [] ∧ analyze_zone ops z m = None.
Proof.
  intros ops z m Hm.
  assert (He : test_refs z m = []).
  { unfold test_refs. rewrite range_empty.
    - by repeat destruct (String.eqb z _).
    - assert (0 ≤ - m / 2) by (apply Z.div_pos; lia). lia. }
  split; [exact He|]. unfold analyze_zone. by rewrite He.
Qed.

Lemma analyze_zone_nonpositive_max_index_witness :
  -3 ≤ 0
  ∧ test_refs "hkl" (-3) = []
  ∧ analyze_zone [identity_op; half_a] "hkl" (-3) = None.
Proof.
  assert (Hm : -3 ≤ 0) by lia.
  split; [exact Hm|].
  exact (analyze_zone_nonpositive_max_index [identity_op; half_a] "hkl" (-3)
           Hm).
Defined.

(** * The candidate list as a list *)

Lemma NoDup_range (lo hi : Z) : NoDup (range lo hi).
Proof. apply NoDup_seqZ. Qed.

Lemma NoDup_guard (b : bool) (r : refl) : NoDup (if b then [r] else []).
Proof. destruct b; [apply NoDup_singleton | apply NoDup_nil_2]. Qed.

Ltac unpack_candidates :=
  repeat match goal with
    | H : _ ∈ _ ≫= _ |- _ => apply list_elem_of_bind in H
    | H : _ ∈ (if _ then [_] else []) |- _ => apply elem_of_guard in H
    | H : ∃ _, _ |- _ => destruct H
    | H : _ ∧ _ |- _ => destruct H
    end.

Ltac nodup_comprehension :=
  repeat (apply NoDup_bind;
          [ intros ? ? ? _ _ ? ?; unpack_candidates; congruence
          | intros ? _
          | apply NoDup_range ]);
  apply NoDup_guard.

(** X11: No reflection is generated twice, and the origin never is. *)
Theorem test_refs_NoDup_no_origin :
  ∀ (z : string) (m : Z),
    NoDup (test_refs z m) ∧ (0, 0, 0) ∉ test_refs z m.
Proof.
  intros z m. split.
  - unfold test_refs.
    repeat match goal with
      | |- context [if String.eqb z ?s then _ else _] =>
          destruct (String.eqb z s)
      end; try apply NoDup_nil_2; nodup_comprehension.
  - unfold test_refs.
    repeat match goal with
      | |- context [if String.eqb z ?s then _ else _] =>
          destruct (String.eqb z s)
      end; try apply not_elem_of_nil;
      intros Hin; unpack_candidates;
      repeat match goal with
        | H : (_, _, _) = (_, _, _) |- _ => inversion H; clear H; subst
        end; discriminate.
Qed.

(** ** How many candidates *)

(** A comprehension whose body has [n] results for every index but [0],
    and one fewer at [0]. *)
Lemma length_bind_one_short (F : Z → list refl) (n : nat) (L : list Z) :
  NoDup L → 0 ∈ L →
  (∀ x, x ≠ 0 → length (F x) = n) → (length (F 0%Z) + 1 = n)%nat →
  (length (L ≫= F) + 1 = length L * n)%nat.
Proof.
  intros Hnd Hin Hn H0.
  assert (Hfull : ∀ L', 0 ∉ L' → length (L' ≫= F) = (length L' * n)%nat).
  { induction L' as [|x L' IH]; intros Hni; [reflexivity|].
    cbn. rewrite length_app, IH, Hn; [lia| |].
    - intros ->. apply Hni, list_elem_of_here.
    - intros Hi. by apply Hni, list_elem_of_further. }
  induction L as [|x L IH]; [by apply elem_of_nil in Hin|].
  apply NoDup_cons in Hnd as [Hx Hnd]. cbn. rewrite length_app.
  apply elem_of_cons in Hin as [<- | Hin].
  - rewrite (Hfull L Hx). lia.
  - assert (x ≠ 0) by (intros ->; contradiction).
    rewrite Hn by assumption. specialize (IH Hnd Hin). lia.
Qed.

Lemma length_bind_full (F : Z → list refl) (n : nat) (L : list Z) :
  (∀ x, length (F x) = n) → length (L ≫= F) = (length L * n)%nat.
Proof.
  intros Hn. induction L as [|x L IH]; [reflexivity|].
  cbn. rewrite length_app, IH, Hn. lia.
Qed.

Lemma length_range (lo hi : Z) : length (range lo hi) = Z.to_nat (hi - lo).
Proof. unfold range. apply length_seqZ. Qed.

(** The number of values of one free index. *)
Definition window_size (m : Z) : nat := Z.to_nat (m - - m / 2).

Lemma zero_in_window (m : Z) : 1 ≤ m → 0 ∈ range (- m / 2) m.
Proof.
  intros Hm. apply elem_of_range.
  assert (- m / 2 < 0) by (apply Z.div_lt_upper_bound; lia). lia.
Qed.

Ltac nonzero_guard :=
  match goal with
  | Hx : ?x ≠ 0 |- context [?x =? 0] =>
      rewrite (proj2 (Z.eqb_neq x 0) Hx)
  end.

Section Counting.
Variable L : list Z.
Hypothesis L_NoDup : NoDup L.
Hypothesis L_zero : 0 ∈ L.

Lemma count1 (g : Z → refl) :
  (length (x ← L; if negb (x =? 0) then [g x] else [])%Z + 1
   = length L)%nat.
Proof.
  rewrite <- (Nat.mul_1_r (length L)).
  apply length_bind_one_short; [done | done | | reflexivity].
  intros x Hx. by rewrite (proj2 (Z.eqb_neq x 0) Hx).
Qed.

Lemma count2 (g : Z → Z → refl) :
  (length (x ← L; y ← L;
           if negb ((x =? 0) && (y =? 0)) then [g x y] else [])%Z + 1
   = length L * length L)%nat.
Proof.
  apply length_bind_one_short; [done | done | |].
  - intros x Hx. rewrite <- (Nat.mul_1_r (length L)).
    apply length_bind_full. intros y.
    by rewrite (proj2 (Z.eqb_neq x 0) Hx).
  - apply (count1 (g 0)).
Qed.

Lemma count3 (g : Z → Z → Z → refl) :
  (length (x ← L; y ← L; z ← L;
           if negb ((x =? 0) && (y =? 0) && (z =? 0)) then [g x y z]
           else [])%Z + 1
   = length L * (length L * length L))%nat.
Proof.
  apply length_bind_one_short; [done | done | |].
  - intros x Hx. apply length_bind_full. intros y.
    rewrite <- (Nat.mul_1_r (length L)).
    apply length_bind_full. intros z.
    by rewrite (proj2 (Z.eqb_neq x 0) Hx).
  - apply (count2 (g 0)).
Qed.

End Counting.

(** X12: For [max_index >= 1], with [w] values per free index, an axis has
    [w - 1] candidates, a plane or a diagonal zone [w * w - 1], and the
    general zone [w * w * w - 1]: the window less the origin. *)
Theorem test_refs_length :
  ∀ (m : Z),
    1 ≤ m →
    let w := window_size m in
    (length (test_refs "h00" m) + 1 = w
     ∧ length (test_refs "0k0" m) + 1 = w
     ∧ length (test_refs "00l" m) + 1 = w
     ∧ length (test_refs "hk0" m) + 1 = w * w
     ∧ length (test_refs "h0l" m) + 1 = w * w
     ∧ length (test_refs "0kl" m) + 1 = w * w
     ∧ length (test_refs "hhl" m) + 1 = w * w
     ∧ length (test_refs "hkk" m) + 1 = w * w
     ∧ length (test_refs "hll" m) + 1 = w * w
     ∧ length (test_refs "hkl" m) + 1 = w * (w * w))%nat.
Proof.
  intros m Hm w. unfold w, window_size. rewrite <- length_range.
  pose proof (NoDup_range (- m / 2) m) as Hnd.
  pose proof (zero_in_window m Hm) as Hz.
  repeat match goal with |- _ ∧ _ => split end; zone_branch.
  - apply (count1 _ Hnd Hz (fun h => (h, 0, 0))).
  - apply (count1 _ Hnd Hz (fun k => (0, k, 0))).
  - apply (count1 _ Hnd Hz (fun l => (0, 0, l))).
  - apply (count2 _ Hnd Hz (fun h k => (h, k, 0))).
  - apply (count2 _ Hnd Hz (fun h l => (h, 0, l))).
  - apply (count2 _ Hnd Hz (fun k l => (0, k, l))).
  - apply (count2 _ Hnd Hz (fun h l => (h, h, l))).
  - apply (count2 _ Hnd Hz (fun h k => (h, k, k))).
  - apply (count2 _ Hnd Hz (fun h l => (h, l, l))).
  - apply (count3 _ Hnd Hz (fun h k l => (h, k, l))).
Qed.

Lemma test_refs_length_witness :
  1 ≤ 8
  ∧ (length (test_refs "h00" 8%Z) + 1 = 12
     ∧ length (test_refs "hk0" 8%Z) + 1 = 144
     ∧ length (test_refs "hkl" 8%Z) + 1 = 1728)%nat.
Proof.
  assert (Hm : 1 ≤ 8) by lia.
  split; [exact Hm|].
  destruct (test_refs_length 8 Hm)
    as (H1 & _ & _ & H2 & _ & _ & _ & _ & _ & H3).
  split; [exact H1 | split; [exact H2 | exact H3]].
Defined.

(** * Planes and diagonals: what the clean-up keeps *)

(** What stays in the set of a plane zone, test by test. *)
Lemma plane_conditions_kept (x2n_s y2n_s sum4_s sum2_s : string)
    (xs ys : list Z) :
  x2n_s ≠ sum2_s → y2n_s ≠ sum2_s → sum4_s ≠ sum2_s →
  let S := plane_conditions x2n_s y2n_s sum4_s sum2_s xs ys ∅ in
  (all_mod 2 xs = true → x2n_s ∈ S)
  ∧ (all_mod 2 ys = true → y2n_s ∈ S)
  ∧ (all_mod2 1 1 4 xs ys = true → sum4_s ∈ S)
  ∧ (all_mod2 1 1 2 xs ys = true →
     sum2_s ∈ S ∨ sum4_s ∈ S ∨ (x2n_s ∈ S ∧ y2n_s ∈ S)).
Proof.
  intros Hx2 Hy2 H42. unfold plane_conditions, add, discard.
  destruct (all_mod 2 xs), (all_mod 2 ys), (all_mod2 1 1 4 xs ys),
    (all_mod2 1 1 2 xs ys); cbn [andb];
    case_bool_decide;
    rewrite ?elem_of_difference, ?elem_of_union, ?elem_of_singleton,
      ?elem_of_empty in *;
    repeat split; intros; try discriminate; tauto.
Qed.

(** What stays in the set of a diagonal zone, and what never does. *)
Lemma diag_conditions_kept (a b : Z) (w4_s sum2_s one2_s : string)
    (xs ys ones : list Z) :
  w4_s ≠ one2_s → sum2_s ≠ one2_s →
  let S := diag_conditions a b w4_s sum2_s one2_s xs ys ones ∅ in
  (all_mod2 a b 4 xs ys = true → w4_s ∈ S)
  ∧ (all_mod2 1 1 2 xs ys = true → sum2_s ∈ S)
  ∧ (all_mod 2 ones = true → one2_s ∈ S ∨ w4_s ∈ S)
  ∧ ¬ (one2_s ∈ S ∧ w4_s ∈ S).
Proof.
  intros Hw1 Hs1. unfold diag_conditions, add, discard.
  destruct (all_mod2 a b 4 xs ys), (all_mod2 1 1 2 xs ys),
    (all_mod 2 ones);
    case_bool_decide;
    rewrite ?elem_of_difference, ?elem_of_union, ?elem_of_singleton,
      ?elem_of_empty in *;
    repeat split; intros; try discriminate; tauto.
Qed.

(** A condition follows from a set of conditions when every reflection that
    satisfies the whole set satisfies it. *)
Definition implied_by (S : gset string) (c : string) : Prop :=
  ∀ r, (∀ c', c' ∈ S → cond_holds c' r = true) → cond_holds c r = true.

Lemma implied_by_elem (S : gset string) (c : string) :
  c ∈ S → implied_by S c.
Proof. intros Hin r Hall. by apply Hall. Qed.

Lemma forallb_pointwise (f g : refl → bool) (P : list refl) :
  (∀ r, f r = g r) → forallb f P = forallb g P.
Proof.
  intros He. induction P as [|r P IH]; [reflexivity|].
  cbn. by rewrite He, IH.
Qed.

Section Families.
Variable P : list refl.
Variables fx fy : refl → Z.

Lemma plane_implied (x2n_s y2n_s sum4_s sum2_s c : string) :
  x2n_s ≠ sum2_s → y2n_s ≠ sum2_s → sum4_s ≠ sum2_s →
  (∀ r, cond_holds x2n_s r = (fx r mod 2 =? 0)) →
  (∀ r, cond_holds y2n_s r = (fy r mod 2 =? 0)) →
  (∀ r, cond_holds sum4_s r = ((1 * fx r + 1 * fy r) mod 4 =? 0)) →
  (∀ r, cond_holds sum2_s r = ((1 * fx r + 1 * fy r) mod 2 =? 0)) →
  c ∈ [x2n_s; y2n_s; sum4_s; sum2_s] →
  forallb (cond_holds c) P = true →
  let S := plane_conditions x2n_s y2n_s sum4_s sum2_s
             (map fx P) (map fy P) ∅ in
  (∃ c', c' ∈ S) ∧ implied_by S c.
Proof.
  intros Hx2 Hy2 H42 Sx Sy S4 S2 Hc Hall S.
  destruct (plane_conditions_kept x2n_s y2n_s sum4_s sum2_s
              (map fx P) (map fy P) Hx2 Hy2 H42) as (Kx & Ky & K4 & K2).
  fold S in Kx, Ky, K4, K2.
  rewrite all_mod_map, <- (forallb_pointwise _ _ P Sx) in Kx.
  rewrite all_mod_map, <- (forallb_pointwise _ _ P Sy) in Ky.
  rewrite all_mod2_map, <- (forallb_pointwise _ _ P S4) in K4.
  rewrite all_mod2_map, <- (forallb_pointwise _ _ P S2) in K2.
  rewrite !elem_of_cons, elem_of_nil in Hc.
  destruct Hc as [-> | [-> | [-> | [-> | []]]]].
  - split; [eexists|apply implied_by_elem]; by apply Kx.
  - split; [eexists|apply implied_by_elem]; by apply Ky.
  - split; [eexists|apply implied_by_elem]; by apply K4.
  - destruct (K2 Hall) as [Hin | [Hin | [Hi1 Hi2]]].
    + split; [by eexists | by apply implied_by_elem].
    + split; [by eexists|]. intros r Hr.
      specialize (Hr _ Hin). rewrite S4 in Hr. rewrite S2.
      apply Z.eqb_eq in Hr. apply Z.eqb_eq.
      Z.div_mod_to_equations. lia.
    + split; [by eexists|]. intros r Hr.
      pose proof (Hr _ Hi1) as H1. pose proof (Hr _ Hi2) as H2.
      rewrite Sx in H1. rewrite Sy in H2. rewrite S2.
      apply Z.eqb_eq in H1, H2. apply Z.eqb_eq.
      Z.div_mod_to_equations. lia.
Qed.

Variable fone : refl → Z.

Lemma diag_implied (a b : Z) (w4_s sum2_s one2_s c : string) :
  w4_s ≠ one2_s → sum2_s ≠ one2_s →
  (∀ r, cond_holds w4_s r = ((a * fx r + b * fy r) mod 4 =? 0)) →
  (∀ r, cond_holds sum2_s r = ((1 * fx r + 1 * fy r) mod 2 =? 0)) →
  (∀ r, cond_holds one2_s r = (fone r mod 2 =? 0)) →
  (∀ r, (a * fx r + b * fy r) mod 4 = 0 → fone r mod 2 = 0) →
  c ∈ [w4_s; sum2_s; one2_s] →
  forallb (cond_holds c) P = true →
  let S := diag_conditions a b w4_s sum2_s one2_s
             (map fx P) (map fy P) (map fone P) ∅ in
  (∃ c', c' ∈ S) ∧ implied_by S c.
Proof.
  intros Hw1 Hs1 Sw Ss So Harith Hc Hall S.
  destruct (diag_conditions_kept a b w4_s sum2_s one2_s
              (map fx P) (map fy P) (map fone P) Hw1 Hs1)
    as (Kw & Ks & Ko & _).
  fold S in Kw, Ks, Ko.
  rewrite all_mod2_map, <- (forallb_pointwise _ _ P Sw) in Kw.
  rewrite all_mod2_map, <- (forallb_pointwise _ _ P Ss) in Ks.
  rewrite all_mod_map, <- (forallb_pointwise _ _ P So) in Ko.
  rewrite !elem_of_cons, elem_of_nil in Hc.
  destruct Hc as [-> | [-> | [-> | []]]].
  - split; [eexists|apply implied_by_elem]; by apply Kw.
  - split; [eexists|apply implied_by_elem]; by apply Ks.
  - destruct (Ko Hall) as [Hin | Hin].
    + split; [by eexists | by apply implied_by_elem].
    + split; [by eexists|]. intros r Hr.
      specialize (Hr _ Hin). rewrite Sw in Hr. rewrite So.
      apply Z.eqb_eq in Hr. apply Z.eqb_eq. by apply Harith.
Qed.

End Families.

Lemma finish_inhabited (S : gset string) :
  (∃ c, c ∈ S) →
  ∃ cs, (if decide (S = ∅) then None else Some (sorted (elements S)))
        = Some cs
        ∧ ∀ c, c ∈ cs ↔ c ∈ S.
Proof.
  intros [c Hin]. rewrite decide_False by (intros ->; set_solver).
  eexists. split; [reflexivity|]. intros c'. unfold sorted.
  by rewrite merge_sort_Permutation, elem_of_elements.
Qed.

(** The rules tested in each plane and diagonal zone. *)
Definition tested_rules : list (string * list string) :=
  [ ("hk0", ["h=2n"; "k=2n"; "h+k=4n"; "h+k=2n"]);
    ("h0l", ["h=2n"; "l=2n"; "h+l=4n"; "h+l=2n"]);
    ("0kl", ["k=2n"; "l=2n"; "k+l=4n"; "k+l=2n"]);
    ("hhl", ["2h+l=4n"; "h+l=2n"; "l=2n"]);
    ("hkk", ["h+2k=4n"; "h+k=2n"; "h=2n"]);
    ("hll", ["h+2l=4n"; "h+l=2n"; "h=2n"]) ].

Ltac reads_as :=
  intros [[h k] l]; unfold cond_holds; simpl (String.eqb _ _);
  cbv iota beta; cbn [fst snd];
  first [reflexivity | do 2 f_equal; lia].

Lemma deduce_tested_rules_kept (z : string) (labels : list string)
    (c : string) (P : list refl) :
  (z, labels) ∈ tested_rules → c ∈ labels →
  forallb (cond_holds c) P = true →
  (∃ c', c' ∈ deduce z P) ∧ implied_by (deduce z P) c.
Proof.
  unfold tested_rules. rewrite !elem_of_cons, elem_of_nil.
  intros [[= -> ->] | [[= -> ->] | [[= -> ->] | [[= -> ->]
          | [[= -> ->] | [[= -> ->] | []]]]]]] Hc Hall; zone_rules.
  - apply (plane_implied P (fun r => r.1.1) (fun r => r.1.2));
      try discriminate; try reads_as; assumption.
  - apply (plane_implied P (fun r => r.1.1) (fun r => r.2));
      try discriminate; try reads_as; assumption.
  - apply (plane_implied P (fun r => r.1.2) (fun r => r.2));
      try discriminate; try reads_as; assumption.
  - apply (diag_implied P (fun r => r.1.1) (fun r => r.2) (fun r => r.2) 2 1);
      try discriminate; try reads_as; try assumption.
    intros r. Z.div_mod_to_equations. lia.
  - apply (diag_implied P (fun r => r.1.1) (fun r => r.1.2)
             (fun r => r.1.1) 1 2);
      try discriminate; try reads_as; try assumption.
    intros r. Z.div_mod_to_equations. lia.
  - apply (diag_implied P (fun r => r.1.1) (fun r => r.2)
             (fun r => r.1.1) 1 2);
      try discriminate; try reads_as; try assumption.
    intros r. Z.div_mod_to_equations. lia.
Qed.

(** X14: In a plane or diagonal zone whose sample has both present and absent
    reflections, every tested rule that holds on all present reflections
    is reported or follows from the reported ones: the clean-up drops
    only what the rest implies. *)
Theorem analyze_zone_tested_rules_kept :
  ∀ (ops : list Op) (m : Z) (z : string) (labels : list string)
    (c : string),
    (z, labels) ∈ tested_rules → c ∈ labels →
    degenerate (present_refs ops (test_refs z m)) (test_refs z m) = false →
    (∀ r, r ∈ present_refs ops (test_refs z m) → cond_holds c r = true) →
    ∃ cs, analyze_zone ops z m = Some cs
          ∧ ∀ r, (∀ c', c' ∈ cs → cond_holds c' r = true) →
                 cond_holds c r = true.
Proof.
  intros ops m z labels c Hz Hc Hd Hall.
  assert (Hf : forallb (cond_holds c)
                 (present_refs ops (test_refs z m)) = true).
  { apply forallb_forall. intros r Hr. by apply Hall, list_elem_of_In. }
  destruct (deduce_tested_rules_kept z labels c _ Hz Hc Hf) as [Hne Himp].
  destruct (finish_inhabited _ Hne) as (cs & Hcs & Hmem).
  exists cs. split.
  - by rewrite analyze_zone_unfold, Hd.
  - intros r Hr. apply Himp. intros c' Hin. by apply Hr, Hmem.
Qed.

Lemma analyze_zone_tested_rules_kept_witness :
  ("hk0", ["h=2n"; "k=2n"; "h+k=4n"; "h+k=2n"]) ∈ tested_rules
  ∧ "h+k=2n" ∈ ["h=2n"; "k=2n"; "h+k=4n"; "h+k=2n"]
  ∧ degenerate
      (present_refs [identity_op; half_a; half_b] (test_refs "hk0" 8))
      (test_refs "hk0" 8) = false
  ∧ (∀ r, r ∈ present_refs [identity_op; half_a; half_b]
                (test_refs "hk0" 8) →
          cond_holds "h+k=2n" r = true)
  ∧ ∃ cs, analyze_zone [identity_op; half_a; half_b] "hk0" 8 = Some cs
          ∧ ∀ r, (∀ c', c' ∈ cs → cond_holds c' r = true) →
                 cond_holds "h+k=2n" r = true.
Proof.
  assert (H1 : ("hk0", ["h=2n"; "k=2n"; "h+k=4n"; "h+k=2n"])
               ∈ tested_rules) by apply list_elem_of_here.
  assert (H2 : "h+k=2n" ∈ ["h=2n"; "k=2n"; "h+k=4n"; "h+k=2n"])
    by (rewrite !elem_of_cons; tauto).
  assert (H3 : degenerate
                 (present_refs [identity_op; half_a; half_b]
                    (test_refs "hk0" 8))
                 (test_refs "hk0" 8) = false) by (vm_compute; reflexivity).
  assert (H4 : ∀ r, r ∈ present_refs [identity_op; half_a; half_b]
                          (test_refs "hk0" 8) →
                    cond_holds "h+k=2n" r = true).
  { intros r Hr. apply list_elem_of_In in Hr. revert r Hr.
    apply forallb_forall. vm_compute. reflexivity. }
  split; [exact H1|]. split; [exact H2|]. split; [exact H3|].
  split; [exact H4|].
  exact (analyze_zone_tested_rules_kept _ 8 "hk0" _ "h+k=2n" H1 H2 H3 H4).
Defined.

(** A quarter translation along [c]. *)
Definition quarter_c : Op := mkOp identity_rot (0, 0, 6).

(** X13: On the diagonals [hhl], [hkk], [hll], the single-index parity is never
    returned together with the weighted sum rule modulo 4; the weighted sum
    rule and the plain sum rule modulo 2 can be returned together. *)
Theorem analyze_zone_diagonal_clean :
  ∀ (ops : list Op) (m : Z) (cs : list string),
    (analyze_zone ops "hhl" m = Some cs →
       ¬ ("l=2n" ∈ cs ∧ "2h+l=4n" ∈ cs))
    ∧ (analyze_zone ops "hkk" m = Some cs →
         ¬ ("h=2n" ∈ cs ∧ "h+2k=4n" ∈ cs))
    ∧ (analyze_zone ops "hll" m = Some cs →
         ¬ ("h=2n" ∈ cs ∧ "h+2l=4n" ∈ cs))
    ∧ analyze_zone [identity_op; half_a; quarter_c] "hhl" default_max_index
      = Some ["2h+l=4n"; "h+l=2n"].
Proof.
  intros ops m cs. repeat match goal with |- _ ∧ _ => split end.
  1-3: intros Hs; pose proof (analyze_zone_Some_elem _ _ _ _ Hs) as He;
    rewrite !He; clear Hs He; zone_rules;
    apply diag_conditions_kept; discriminate.
  vm_compute. reflexivity.
Qed.

(** * A parity rule on an axis, seen through the window *)

Lemma elem_of_present_refs (ops : list Op) (T : list refl) (h k l : Z) :
  (h, k, l) ∈ present_refs ops T
  ↔ (h, k, l) ∈ T ∧ is_reflection_absent ops h k l = false.
Proof.
  unfold present_refs. rewrite !list_elem_of_In, filter_In.
  by rewrite negb_true_iff.
Qed.

(** The guard of line 96 lets a sample through as soon as it has a present
    and an absent candidate. *)
Lemma degenerate_false (ops : list Op) (T : list refl)
    (h k l h' k' l' : Z) :
  (h, k, l) ∈ T → is_reflection_absent ops h k l = false →
  (h', k', l') ∈ T → is_reflection_absent ops h' k' l' = true →
  degenerate (present_refs ops T) T = false.
Proof.
  intros Hin Hp Hin' Ha. unfold degenerate. apply orb_false_iff. split.
  - apply Nat.eqb_neq. intros Hlen. unfold present_refs in Hlen.
    apply filter_length_forallb in Hlen.
    rewrite forallb_forall in Hlen.
    apply list_elem_of_In in Hin'. specialize (Hlen _ Hin').
    cbn in Hlen. by rewrite Ha in Hlen.
  - assert (He : (h, k, l) ∈ present_refs ops T)
      by by apply elem_of_present_refs.
    destruct (present_refs ops T); [by apply elem_of_nil in He | reflexivity].
Qed.

Lemma all_mod_false (n : Z) (g : refl → Z) (P : list refl) (r : refl) :
  r ∈ P → g r mod n ≠ 0 → all_mod n (map g P) = false.
Proof.
  intros Hin Hne. rewrite all_mod_map. apply not_true_iff_false.
  rewrite forallb_forall. intros Hall.
  apply list_elem_of_In in Hin. specialize (Hall _ Hin).
  by apply Z.eqb_eq in Hall.
Qed.

Lemma all_mod_true (n : Z) (g : refl → Z) (P : list refl) :
  (∀ r, r ∈ P → g r mod n = 0) → all_mod n (map g P) = true.
Proof.
  intros Hall. rewrite all_mod_map. apply forallb_forall.
  intros r Hin. apply Z.eqb_eq, Hall. by apply list_elem_of_In.
Qed.

Lemma elem_of_test_refs_h00 (m h k l : Z) :
  (h, k, l) ∈ test_refs "h00" m ↔ in_window m h ∧ k = 0 ∧ l = 0 ∧ h ≠ 0.
Proof. zone_branch. comprehension. Qed.

Lemma elem_of_test_refs_0k0 (m h k l : Z) :
  (h, k, l) ∈ test_refs "0k0" m ↔ in_window m k ∧ h = 0 ∧ l = 0 ∧ k ≠ 0.
Proof. zone_branch. comprehension. Qed.

Lemma elem_of_test_refs_00l (m h k l : Z) :
  (h, k, l) ∈ test_refs "00l" m ↔ in_window m l ∧ h = 0 ∧ k = 0 ∧ l ≠ 0.
Proof. zone_branch. comprehension. Qed.

Lemma window_has_1_2 (m : Z) : 3 ≤ m → in_window m 1 ∧ in_window m 2.
Proof.
  intros Hm. unfold in_window.
  assert (- m / 2 < 0) by (apply Z.div_lt_upper_bound; lia). lia.
Qed.

Lemma odd_false_mod2 (x : Z) : Z.odd x = false → x mod 2 = 0.
Proof.
  intros Ho. rewrite <- Z.negb_even in Ho. apply negb_false_iff in Ho.
  apply Z.even_spec in Ho as [q ->]. rewrite Z.mul_comm.
  apply Z.mod_mul. lia.
Qed.

Lemma h00_parity_rule (ops : list Op) (m : Z) :
  3 ≤ m →
  (∀ h, in_window m h → is_reflection_absent ops h 0 0 = Z.odd h) →
  analyze_zone ops "h00" m = Some ["h=2n"].
Proof.
  intros Hm Habs. destruct (window_has_1_2 m Hm) as [H1 H2].
  rewrite analyze_zone_unfold.
  assert (Hin1 : (1, 0, 0) ∈ test_refs "h00" m)
    by (apply elem_of_test_refs_h00; split; [exact H1 | done]).
  assert (Hin2 : (2, 0, 0) ∈ test_refs "h00" m)
    by (apply elem_of_test_refs_h00; split; [exact H2 | done]).
  rewrite (degenerate_false ops _ 2 0 0 1 0 0 Hin2 (Habs 2 H2)
             Hin1 (Habs 1 H1)).
  zone_rules. unfold axis4_conditions.
  rewrite (all_mod_false 4 _ _ (2, 0, 0));
    [| by apply elem_of_present_refs; split; [|apply Habs] | done].
  rewrite all_mod_true; [apply finish_single|].
  intros [[h k] l] Hr. apply elem_of_present_refs in Hr as [Hr Hp].
  apply elem_of_test_refs_h00 in Hr as (Hw & -> & -> & _).
  rewrite (Habs h Hw) in Hp. by apply odd_false_mod2.
Qed.

Lemma _0k0_parity_rule (ops : list Op) (m : Z) :
  3 ≤ m →
  (∀ k, in_window m k → is_reflection_absent ops 0 k 0 = Z.odd k) →
  analyze_zone ops "0k0" m = Some ["k=2n"].
Proof.
  intros Hm Habs. destruct (window_has_1_2 m Hm) as [H1 H2].
  rewrite analyze_zone_unfold.
  assert (Hin1 : (0, 1, 0) ∈ test_refs "0k0" m)
    by (apply elem_of_test_refs_0k0; split; [exact H1 | done]).
  assert (Hin2 : (0, 2, 0) ∈ test_refs "0k0" m)
    by (apply elem_of_test_refs_0k0; split; [exact H2 | done]).
  rewrite (degenerate_false ops _ 0 2 0 0 1 0 Hin2 (Habs 2 H2)
             Hin1 (Habs 1 H1)).
  zone_rules. unfold axis4_conditions.
  rewrite (all_mod_false 4 _ _ (0, 2, 0));
    [| by apply elem_of_present_refs; split; [|apply Habs] | done].
  rewrite all_mod_true; [apply finish_single|].
  intros [[h k] l] Hr. apply elem_of_present_refs in Hr as [Hr Hp].
  apply elem_of_test_refs_0k0 in Hr as (Hw & -> & -> & _).
  rewrite (Habs k Hw) in Hp. by apply odd_false_mod2.
Qed.

Lemma _00l_parity_rule (ops : list Op) (m : Z) :
  3 ≤ m →
  (∀ l, in_window m l → is_reflection_absent ops 0 0 l = Z.odd l) →
  analyze_zone ops "00l" m = Some ["l=2n"].
Proof.
  intros Hm Habs. destruct (window_has_1_2 m Hm) as [H1 H2].
  rewrite analyze_zone_unfold.
  assert (Hin1 : (0, 0, 1) ∈ test_refs "00l" m)
    by (apply elem_of_test_refs_00l; split; [exact H1 | done]).
  assert (Hin2 : (0, 0, 2) ∈ test_refs "00l" m)
    by (apply elem_of_test_refs_00l; split; [exact H2 | done]).
  rewrite (degenerate_false ops _ 0 0 2 0 0 1 Hin2 (Habs 2 H2)
             Hin1 (Habs 1 H1)).
  zone_rules. unfold axis_l_conditions.
  assert (Hp2 : (0, 0, 2) ∈ present_refs ops (test_refs "00l" m))
    by (apply elem_of_present_refs; split; [done | apply Habs; done]).
  rewrite (all_mod_false 6 _ _ (0, 0, 2) Hp2) by done.
  rewrite (all_mod_false 4 _ _ (0, 0, 2) Hp2) by done.
  rewrite (all_mod_false 3 _ _ (0, 0, 2) Hp2) by done.
  rewrite all_mod_true; [apply finish_single|].
  intros [[h k] l] Hr. apply elem_of_present_refs in Hr as [Hr Hp].
  apply elem_of_test_refs_00l in Hr as (Hw & -> & -> & _).
  rewrite (Habs l Hw) in Hp. by apply odd_false_mod2.
Qed.

(** X15: When, inside the window, the reflections of an axis are absent exactly
    for an odd index, [analyze_zone] reports the parity rule of that axis
    and nothing else, for every window with [max_index >= 3]. *)
Theorem analyze_zone_axis_parity :
  ∀ (ops : list Op) (m : Z),
    3 ≤ m →
    ((∀ h, in_window m h → is_reflection_absent ops h 0 0 = Z.odd h) →
     analyze_zone ops "h00" m = Some ["h=2n"])
    ∧ ((∀ k, in_window m k → is_reflection_absent ops 0 k 0 = Z.odd k) →
       analyze_zone ops "0k0" m = Some ["k=2n"])
    ∧ ((∀ l, in_window m l → is_reflection_absent ops 0 0 l = Z.odd l) →
       analyze_zone ops "00l" m = Some ["l=2n"]).
Proof.
  intros ops m Hm. split; [|split]; intros Habs.
  - by apply h00_parity_rule.
  - by apply _0k0_parity_rule.
  - by apply _00l_parity_rule.
Qed.

(** A property of every index of the window, decided by running over it. *)
Lemma window_forallb (m : Z) (f : Z → bool) :
  forallb f (range (- m / 2) m) = true → ∀ h, in_window m h → f h = true.
Proof.
  rewrite forallb_forall. intros Hall h Hw.
  apply Hall, list_elem_of_In, elem_of_range, Hw.
Qed.

Lemma analyze_zone_axis_parity_witness :
  3 ≤ 8
  ∧ (∀ h, in_window 8 h →
          is_reflection_absent [identity_op; half_a] h 0 0 = Z.odd h)
  ∧ analyze_zone [identity_op; half_a] "h00" 8 = Some ["h=2n"].
Proof.
  assert (Hm : 3 ≤ 8) by lia.
  assert (Habs : ∀ h, in_window 8 h →
                      is_reflection_absent [identity_op; half_a] h 0 0
                      = Z.odd h).
  { intros h Hw.
    apply (window_forallb 8
             (fun h => Bool.eqb
                         (is_reflection_absent [identity_op; half_a] h 0 0)
                         (Z.odd h))) in Hw; [|by vm_compute].
    by apply eqb_prop in Hw. }
  split; [exact Hm|]. split; [exact Habs|].
  exact (proj1 (analyze_zone_axis_parity [identity_op; half_a] 8 Hm) Habs).
Defined.

(** * The relative tolerance on a half-integer phase *)

Lemma Qabs_inject_Z (a : Z) : Qabs (inject_Z a) = inject_Z (Z.abs a).
Proof. reflexivity. Qed.

(** A phase half a unit away from the integer [b] it is rounded to passes
    the integer test exactly from [|b| = 50000] on. *)
Lemma close_half_away (q : Q) (b : Z) :
  (Qabs (q - inject_Z b) == 1 # 2)%Q →
  (close q (inject_Z b) ↔ 50000 ≤ Z.abs b).
Proof.
  intros Hd. unfold close, Np.atol, Np.rtol.
  rewrite Hd, Qabs_inject_Z. split.
  - intros Hc.
    assert (Hlt : (inject_Z 49999 < inject_Z (Z.abs b))%Q).
    { change (inject_Z 49999) with (49999 # 1)%Q. lra. }
    rewrite <- Zlt_Qlt in Hlt. lia.
  - intros Hb.
    assert (Hle : (inject_Z 50000 <= inject_Z (Z.abs b))%Q)
      by by rewrite <- Zle_Qle.
    change (inject_Z 50000) with (50000 # 1)%Q in Hle. lra.
Qed.

Lemma identity_rot_always_invariant (t : Z * Z * Z) (h k l : Z) :
  rot_invariant (mkOp identity_rot t) h k l.
Proof.
  unfold rot_invariant. cbn.
  repeat split; apply close_of_Qeq; field; discriminate.
Qed.

Lemma half_a_phase (h : Z) :
  (Np.dot (h, 0%Z, 0%Z) (Np.vec_div (tran half_a) DEN)
   == inject_Z h * (1 # 2))%Q.
Proof.
  cbn. change (inject_Z DEN) with 24%Q. change (inject_Z 12) with 12%Q.
  change (inject_Z 0) with 0%Q. field.
Qed.

Lemma phase_not_integer_comp (op : Op) (h k l : Z) (q : Q) :
  (Np.dot (h, k, l) (Np.vec_div (tran op) DEN) == q)%Q →
  (phase_not_integer op h k l ↔ ¬ close q (Np.round q)).
Proof.
  intros He. unfold phase_not_integer. cbv zeta.
  rewrite (round_comp _ _ He).
  by rewrite (close_comp _ q _ (Np.round q) He (Qeq_refl _)).
Qed.

Lemma half_a_phase_even (n : Z) : ¬ phase_not_integer half_a (2 * n) 0 0.
Proof.
  rewrite (phase_not_integer_comp _ _ _ _ (inject_Z n)).
  - intros Hn. apply Hn. rewrite round_inject_Z. by apply close_of_Qeq.
  - rewrite half_a_phase, inject_Z_mult. field.
Qed.

Lemma round_half (n : Z) :
  Np.round (inject_Z n + (1 # 2))
  = inject_Z (if Z.even n then n else n + 1).
Proof.
  unfold Np.round.
  assert (Hf : Qfloor (inject_Z n + (1 # 2)) = n)
    by (apply Qfloor_unique; lra).
  rewrite Hf.
  destruct (Qcompare_spec (inject_Z n + (1 # 2) - inject_Z n) (1 # 2));
    [by destruct (Z.even n) | lra | lra].
Qed.

Lemma half_a_phase_odd (n : Z) :
  phase_not_integer half_a (2 * n + 1) 0 0
  ↔ Z.abs (2 * n + 1) ≤ 99997.
Proof.
  rewrite (phase_not_integer_comp _ _ _ _ (inject_Z n + (1 # 2))).
  2: { rewrite half_a_phase, inject_Z_plus, inject_Z_mult.
       change (inject_Z 1) with 1%Q. change (inject_Z 2) with 2%Q. field. }
  rewrite round_half.
  set (b := if Z.even n then n else n + 1).
  assert (Hd : (Qabs (inject_Z n + (1 # 2) - inject_Z b) == 1 # 2)%Q).
  { unfold b. destruct (Z.even n).
    - rewrite Qabs_pos; lra.
    - rewrite inject_Z_plus. change (inject_Z 1) with 1%Q.
      rewrite Qabs_neg; lra. }
  rewrite (close_half_away _ b Hd). unfold b.
  destruct (Z.even n) eqn:He.
  - apply Z.even_spec in He as [j ->]. lia.
  - rewrite <- Z.negb_odd in He. apply negb_false_iff in He.
    apply Z.odd_spec in He as [j ->]. lia.
Qed.

Lemma absent_half_a_range (h : Z) :
  is_reflection_absent [identity_op; half_a] h 0 0
  = Z.odd h && (Z.abs h <=? 99997).
Proof.
  assert (Hiff : is_reflection_absent [identity_op; half_a] h 0 0 = true
                 ↔ phase_not_integer half_a h 0 0).
  { rewrite is_reflection_absent_true. split.
    - intros (op & Hin & _ & Hp).
      apply elem_of_cons in Hin as [-> | Hin].
      + by apply identity_phase_integer in Hp.
      + by apply list_elem_of_singleton in Hin as ->.
    - intros Hp. exists half_a. split; [|split].
      + apply list_elem_of_further, list_elem_of_here.
      + apply identity_rot_always_invariant.
      + exact Hp. }
  destruct (Z.odd h) eqn:Ho.
  - apply Z.odd_spec in Ho as [n ->]. rewrite half_a_phase_odd in Hiff.
    cbn [andb]. destruct (Z.leb_spec (Z.abs (2 * n + 1)) 99997) as [Hl | Hl].
    + by apply Hiff.
    + apply not_true_iff_false. rewrite Hiff. lia.
  - rewrite <- Z.negb_even in Ho. apply negb_false_iff in Ho.
    apply Z.even_spec in Ho as [n ->]. cbn [andb].
    apply not_true_iff_false. rewrite Hiff. apply half_a_phase_even.
Qed.

(** X16: With the half translation along [a], a reflection [(h, 0, 0)] is absent
    exactly when [h] is odd and [|h| <= 99997]: from [|h| = 99999] on, the
    relative tolerance [rtol * |round(ht)|] reaches [1/2] and an odd
    reflection passes the integer test. *)
Theorem is_reflection_absent_half_a_range :
  ∀ (h : Z),
    is_reflection_absent [identity_op; half_a] h 0 0
    = Z.odd h && (Z.abs h <=? 99997).
Proof. exact absent_half_a_range. Qed.

(** X17: With the identity and the half translation along [a], the axis [h00]
    yields exactly ["h=2n"] for every window from [max_index = 3] to
    [max_index = 99999], and nothing from [max_index = 100000] on, where the
    window reaches the odd index 99999 that the relative tolerance lets
    through. *)
Theorem analyze_zone_half_a_window :
  ∀ (m : Z),
    (3 ≤ m ≤ 99999 →
     analyze_zone [identity_op; half_a] "h00" m = Some ["h=2n"])
    ∧ (100000 ≤ m → analyze_zone [identity_op; half_a] "h00" m = None).
Proof.
  intros m. split.
  - intros [Hlo Hhi]. apply h00_parity_rule; [exact Hlo|].
    intros h [Hl Hu]. rewrite absent_half_a_range.
    assert (- 50000 ≤ - m / 2) by (apply Z.div_le_lower_bound; lia).
    destruct (Z.odd h) eqn:Ho; [|reflexivity]. cbn [andb].
    apply Z.leb_le. apply Z.odd_spec in Ho as [n ->]. lia.
  - intros Hm. rewrite analyze_zone_unfold.
    assert (Hw : ∀ h, 0 < h < m → (h, 0, 0) ∈ test_refs "h00" m).
    { intros h Hh. apply elem_of_test_refs_h00.
      split; [|split; [done | split; [done | lia]]].
      unfold in_window.
      assert (- m / 2 < 0) by (apply Z.div_lt_upper_bound; lia). lia. }
    assert (Hp2 : (2, 0, 0) ∈ present_refs [identity_op; half_a]
                                (test_refs "h00" m)).
    { apply elem_of_present_refs. split; [apply Hw; lia|].
      by rewrite absent_half_a_range. }
    assert (Hp9 : (99999, 0, 0) ∈ present_refs [identity_op; half_a]
                                    (test_refs "h00" m)).
    { apply elem_of_present_refs. split; [apply Hw; lia|].
      by rewrite absent_half_a_range. }
    rewrite (degenerate_false _ _ 2 0 0 1 0 0);
      [| apply Hw; lia | by rewrite absent_half_a_range
       | apply Hw; lia | by rewrite absent_half_a_range ].
    zone_rules. unfold axis4_conditions.
    rewrite (all_mod_false 4 _ _ (2, 0, 0) Hp2) by done.
    rewrite (all_mod_false 2 _ _ (99999, 0, 0) Hp9) by done.
    apply finish_empty.
Qed.

(** * The database loop of [main] *)

(** [main] is modelled from its loop on: the two gemmi look-ups are
    parameters, the skip log is the list of the records appended to the log
    file (their text left out), the console output is dropped.  A database
    key [str(n)] is represented by the number [n] itself, [str] being
    injective on integers with [int(str(n)) = n]. *)

Module Main.

(** ** Python dictionaries, in insertion order *)

Section Dict.
Context {K V : Type} `{EqDecision K}.

(** [k in d]. *)
Definition dict_mem (k : K) (d : list (K * V)) : bool :=
  existsb (fun kv => bool_decide (kv.1 = k)) d.

(** [d.get(k)]. *)
Fixpoint dict_get (k : K) (d : list (K * V)) : option V :=
  match d with
  | [] => None
  | (k', v) :: d' => if decide (k' = k) then Some v else dict_get k d'
  end.

(** [d[k] = v]: a present key keeps its place, a new one goes last. *)
Fixpoint dict_set (k : K) (v : V) (d : list (K * V)) : list (K * V) :=
  match d with
  | [] => [(k, v)]
  | (k', v') :: d' =>
      if decide (k' = k) then (k, v) :: d' else (k', v') :: dict_set k v d'
  end.

End Dict.

(** ** Records *)

(** One record of [settings_list.json]. *)
Record Setting := mkSetting {
  number : Z;
  symbol : string;
  qualifier : string
}.

(** What the script reads of a [gemmi.SpaceGroup]. *)
Record SpaceGroup := mkSpaceGroup {
  sg_number : Z;
  hm : string;
  crystal_system_str : string;
  point_group_hm : string;
  is_centrosymmetric : bool;
  operations : list Op
}.

(** [setting_data]. *)
Record SettingData := mkSettingData {
  sd_symbol : string;
  sd_description : string;
  sd_reflection_conditions : list (string * list string)
}.

(** One value of [database]. *)
Record Entry := mkEntry {
  e_number : Z;
  e_standard_symbol : string;
  e_crystal_system : string;
  e_point_group : string;
  e_centrosymmetric : bool;
  e_settings : list SettingData
}.

(** The three kinds of record the loop appends to the skip log. *)
Inductive LogLine :=
  | Unparsed (n : Z) (sym qual : string)
  | NumberMismatch (n : Z) (sym : string) (parsed : Z)
  | CriticalError (n : Z) (sym : string).

(** ** The loop *)

(** Lines 280-286: the conditions of one setting, zone by zone; a zone is
    kept when [analyze_zone] returns a non-empty list. *)
Definition setting_conditions (ops : list Op) : list (string * list string) :=
  foldl (fun setting_conditions zone =>
           match analyze_zone ops zone default_max_index with
           | Some (c :: cs) => dict_set zone (c :: cs) setting_conditions
           | _ => setting_conditions
           end)
        [] zones.

Section Loop.
Variable find_spacegroup_by_name : string → option SpaceGroup.
Variable find_spacegroup_by_number : Z → option SpaceGroup.

(** Lines 263-273: the entry of a group is created at its first setting;
    [None] stands for the exception raised when gemmi has no group of that
    number. *)
Definition ensure_entry (sg_number : Z) (database : list (Z * Entry))
  : option (list (Z * Entry)) :=
  if dict_mem sg_number database then Some database
  else
    match find_spacegroup_by_number sg_number with
    | None => None
    | Some sg_std =>
        Some (dict_set sg_number
                {| e_number := sg_number;
                   e_standard_symbol := hm sg_std;
                   e_crystal_system := crystal_system_str sg_std;
                   e_point_group := point_group_hm sg_std;
                   e_centrosymmetric := is_centrosymmetric sg_std;
                   e_settings := [] |}
                database)
    end.

(** Line 293: [database[key]["settings"].append(setting_data)]. *)
Definition append_setting (key : Z) (setting_data : SettingData)
    (database : list (Z * Entry)) : option (list (Z * Entry)) :=
  match dict_get key database with
  | None => None
  | Some e =>
      Some (dict_set key
              {| e_number := e_number e;
                 e_standard_symbol := e_standard_symbol e;
                 e_crystal_system := e_crystal_system e;
                 e_point_group := e_point_group e;
                 e_centrosymmetric := e_centrosymmetric e;
                 e_settings := e_settings e ++ [setting_data] |}
              database)
  end.

(** Lines 238-299: one turn of the loop on the database and the log. *)
Definition process (st : list (Z * Entry) * list LogLine) (setting : Setting)
  : list (Z * Entry) * list LogLine :=
  let '(database, log) := st in
  let sg_number := number setting in
  let hm_symbol := symbol setting in
  let setting_name := qualifier setting in
  match find_spacegroup_by_name hm_symbol with
  | None => (database, log ++ [Unparsed sg_number hm_symbol setting_name])
  | Some sg =>
      if negb (Main.sg_number sg =? sg_number) then
        (database,
         log ++ [NumberMismatch sg_number hm_symbol (Main.sg_number sg)])
      else
        match ensure_entry sg_number database with
        | None => (database, log ++ [CriticalError sg_number hm_symbol])
        | Some database' =>
            let setting_data :=
              {| sd_symbol := hm_symbol;
                 sd_description := setting_name;
                 sd_reflection_conditions :=
                   setting_conditions (operations sg) |} in
            match append_setting sg_number setting_data database' with
            | None =>
                (database', log ++ [CriticalError sg_number hm_symbol])
            | Some database'' => (database'', log)
            end
        end
  end.

(** The loop over [settings_list], from the empty database and log. *)
Definition run (settings_list : list Setting)
  : list (Z * Entry) * list LogLine :=
  foldl process ([], []) settings_list.

End Loop.

(** Line 304: [sorted(database.items(), key=lambda item: int(item[0]))]. *)
Definition key_le (a b : Z * Entry) : Prop := a.1 ≤ b.1.

#[local] Instance key_le_dec (a b : Z * Entry) : Decision (key_le a b) :=
  decide (a.1 ≤ b.1).

Definition sorted_database (database : list (Z * Entry)) : list (Z * Entry) :=
  merge_sort key_le database.


(** ** Facts on dictionaries *)

Section DictFacts.
Context {K V : Type} `{EqDecision K}.
Implicit Types (k : K) (v : V) (d : list (K * V)).

Lemma dict_mem_true k d : dict_mem k d = true ↔ k ∈ d.*1.
Proof.
  unfold dict_mem. induction d as [|[k' v'] d IH]; cbn.
  - split; [discriminate | by intros ?%elem_of_nil].
  - rewrite orb_true_iff, IH, elem_of_cons, bool_decide_eq_true.
    cbn. split; intros [? | ?]; auto.
Qed.

Lemma dict_get_Some_elem k v d : dict_get k d = Some v → (k, v) ∈ d.
Proof.
  induction d as [|[k' v'] d IH]; cbn; [discriminate|].
  destruct (decide (k' = k)) as [-> | Hne].
  - intros [= ->]. apply list_elem_of_here.
  - intros Hg. by apply list_elem_of_further, IH.
Qed.

Lemma dict_get_None k d : dict_get k d = None ↔ k ∉ d.*1.
Proof.
  induction d as [|[k' v'] d IH]; cbn.
  - split; [intros _; apply not_elem_of_nil | reflexivity].
  - rewrite not_elem_of_cons. destruct (decide (k' = k)) as [-> | Hne].
    + split; [discriminate | by intros [? _]].
    + rewrite IH. split; [by intros ? | by intros [_ ?]].
Qed.

Lemma dict_get_set_eq k v d : dict_get k (dict_set k v d) = Some v.
Proof.
  induction d as [|[k' v'] d IH]; cbn.
  - by rewrite decide_True.
  - destruct (decide (k' = k)) as [-> | Hne]; cbn.
    + by rewrite decide_True.
    + by rewrite decide_False.
Qed.

Lemma dict_get_set_ne k k' v d :
  k' ≠ k → dict_get k' (dict_set k v d) = dict_get k' d.
Proof.
  intros Hne. induction d as [|[k0 v0] d IH]; cbn.
  - by rewrite decide_False.
  - destruct (decide (k0 = k)) as [-> | Hne0]; cbn.
    + by rewrite !decide_False.
    + by rewrite IH.
Qed.

Lemma dict_set_keys k v d :
  (dict_set k v d).*1 = if dict_mem k d then d.*1 else d.*1 ++ [k].
Proof.
  unfold dict_mem. induction d as [|[k' v'] d IH]; cbn; [reflexivity|].
  destruct (decide (k' = k)) as [-> | Hne]; cbn.
  - by rewrite bool_decide_eq_true_2.
  - rewrite bool_decide_eq_false_2 by done. cbn. rewrite IH.
    by destruct (existsb _ d).
Qed.

Lemma dict_set_NoDup k v d : NoDup d.*1 → NoDup (dict_set k v d).*1.
Proof.
  intros Hnd. rewrite dict_set_keys.
  destruct (dict_mem k d) eqn:Hm; [exact Hnd|].
  apply NoDup_app. split; [exact Hnd|]. split; [|apply NoDup_singleton].
  intros k' Hin Hin'. apply list_elem_of_singleton in Hin' as ->.
  apply dict_mem_true in Hin. congruence.
Qed.

Lemma dict_mem_get k d : dict_mem k d = false ↔ dict_get k d = None.
Proof.
  rewrite dict_get_None, <- dict_mem_true. by destruct (dict_mem k d).
Qed.

End DictFacts.


(** The number of setting records in the whole database. *)
Definition total_settings (database : list (Z * Entry)) : nat :=
  sum_list_with (fun kv => length (e_settings kv.2)) database.

Lemma total_settings_set_old (k : Z) (e e0 : Entry) (d : list (Z * Entry)) :
  dict_get k d = Some e0 →
  (total_settings (dict_set k e d) + length (e_settings e0)
   = total_settings d + length (e_settings e))%nat.
Proof.
  unfold total_settings. induction d as [|[k' v'] d IH]; cbn; [discriminate|].
  destruct (decide (k' = k)) as [-> | Hne]; cbn.
  - intros [= ->]. lia.
  - intros Hg. specialize (IH Hg). lia.
Qed.

Lemma total_settings_set_new (k : Z) (e : Entry) (d : list (Z * Entry)) :
  dict_get k d = None →
  total_settings (dict_set k e d)
  = (total_settings d + length (e_settings e))%nat.
Proof.
  unfold total_settings. induction d as [|[k' v'] d IH]; cbn; [lia|].
  destruct (decide (k' = k)) as [-> | Hne]; cbn; [discriminate|].
  intros Hg. rewrite (IH Hg). lia.
Qed.

(** ** The loop as a filter *)

Section LoopFacts.
Variable find_spacegroup_by_name : string → option SpaceGroup.
Variable find_spacegroup_by_number : Z → option SpaceGroup.

#[local] Abbreviation process :=
  (process find_spacegroup_by_name find_spacegroup_by_number).
#[local] Abbreviation run :=
  (run find_spacegroup_by_name find_spacegroup_by_number).

(** The record a resolved setting contributes. *)
Definition record_of (setting : Setting) (sg : SpaceGroup) : SettingData :=
  {| sd_symbol := symbol setting;
     sd_description := qualifier setting;
     sd_reflection_conditions := setting_conditions (operations sg) |}.

(** What becomes of one setting: a record for its group, or a log line. *)
Definition outcome (setting : Setting) : SettingData + LogLine :=
  match find_spacegroup_by_name (symbol setting) with
  | None =>
      inr (Unparsed (number setting) (symbol setting) (qualifier setting))
  | Some sg =>
      if negb (sg_number sg =? number setting) then
        inr (NumberMismatch (number setting) (symbol setting) (sg_number sg))
      else
        match find_spacegroup_by_number (number setting) with
        | None => inr (CriticalError (number setting) (symbol setting))
        | Some _ => inl (record_of setting sg)
        end
  end.

(** The log lines of a list of settings, in order. *)
Definition log_of (settings_list : list Setting) : list LogLine :=
  omap (fun s => match outcome s with inr line => Some line | inl _ => None end)
       settings_list.

(** The records of group [k] in a list of settings, in order. *)
Definition records_of (k : Z) (settings_list : list Setting)
  : list SettingData :=
  omap (fun s => match outcome s with
                 | inl sd => if decide (number s = k) then Some sd else None
                 | inr _ => None
                 end)
       settings_list.

(** The entry of group [k]: none without a record, else gemmi's standard
    data of number [k] and the records. *)
Definition entry_of (k : Z) (settings_list : list Setting) : option Entry :=
  match records_of k settings_list with
  | [] => None
  | records =>
      match find_spacegroup_by_number k with
      | None => None
      | Some sg_std =>
          Some {| e_number := k;
                  e_standard_symbol := hm sg_std;
                  e_crystal_system := crystal_system_str sg_std;
                  e_point_group := point_group_hm sg_std;
                  e_centrosymmetric := is_centrosymmetric sg_std;
                  e_settings := records |}
      end
  end.

(** The state of the loop after the settings [done]. *)
Definition loop_inv (done : list Setting)
    (st : list (Z * Entry) * list LogLine) : Prop :=
  st.2 = log_of done
  ∧ NoDup st.1.*1
  ∧ (∀ k, dict_get k st.1 = entry_of k done)
  ∧ (length st.2 + total_settings st.1 = length done)%nat.

Lemma log_of_snoc (done : list Setting) (s : Setting) :
  log_of (done ++ [s])
  = log_of done ++ match outcome s with inr line => [line] | inl _ => [] end.
Proof.
  unfold log_of. rewrite omap_app. cbn. by destruct (outcome s).
Qed.

Lemma records_of_snoc (k : Z) (done : list Setting) (s : Setting) :
  records_of k (done ++ [s])
  = records_of k done
    ++ match outcome s with
       | inl sd => if decide (number s = k) then [sd] else []
       | inr _ => []
       end.
Proof.
  unfold records_of. rewrite omap_app. cbn.
  destruct (outcome s); [|reflexivity]. by destruct (decide _).
Qed.

Lemma entry_of_number_known (k : Z) (done : list Setting) (e : Entry) :
  entry_of k done = Some e → is_Some (find_spacegroup_by_number k).
Proof.
  unfold entry_of. destruct (records_of k done); [discriminate|].
  destruct (find_spacegroup_by_number k); [by eexists | discriminate].
Qed.

Lemma entry_of_snoc_other (k : Z) (done : list Setting) (s : Setting) :
  match outcome s with inl _ => number s ≠ k | inr _ => True end →
  entry_of k (done ++ [s]) = entry_of k done.
Proof.
  intros Ho. unfold entry_of. rewrite records_of_snoc.
  destruct (outcome s); [|by rewrite app_nil_r].
  rewrite decide_False by done. by rewrite app_nil_r.
Qed.

Lemma process_skip (done : list Setting) (s : Setting)
    (db : list (Z * Entry)) (log : list LogLine) (line : LogLine) :
  outcome s = inr line →
  loop_inv done (db, log) → loop_inv (done ++ [s]) (db, log ++ [line]).
Proof.
  intros Ho (Hlog & Hnd & Hget & Hacc). cbn in Hlog, Hnd, Hget, Hacc.
  split; [|split; [|split]]; cbn.
  - by rewrite log_of_snoc, Ho, Hlog.
  - exact Hnd.
  - intros k. rewrite entry_of_snoc_other; [apply Hget | by rewrite Ho].
  - rewrite !length_app. cbn. lia.
Qed.

(** One turn of the loop keeps the description. *)
Lemma process_inv (done : list Setting) (s : Setting)
    (st : list (Z * Entry) * list LogLine) :
  loop_inv done st → loop_inv (done ++ [s]) (process st s).
Proof.
  destruct st as [db log]. intros Hinv.
  pose proof Hinv as (Hlog & Hnd & Hget & Hacc).
  cbn in Hlog, Hnd, Hget, Hacc.
  unfold Main.process.
  destruct (find_spacegroup_by_name (symbol s)) as [sg|] eqn:Hn.
  2: { apply process_skip; [|exact Hinv]. unfold outcome. by rewrite Hn. }
  destruct (negb (sg_number sg =? number s)) eqn:Hm.
  { apply process_skip; [|exact Hinv]. unfold outcome. by rewrite Hn, Hm. }
  unfold ensure_entry, append_setting.
  destruct (find_spacegroup_by_number (number s)) as [sg_std|] eqn:Hb.
  2: { assert (Hmem : dict_mem (number s) db = false).
       { apply dict_mem_get. rewrite Hget.
         destruct (entry_of (number s) done) as [e|] eqn:He; [|reflexivity].
         apply entry_of_number_known in He as [? He]. congruence. }
       rewrite Hmem. apply process_skip; [|exact Hinv].
       unfold outcome. by rewrite Hn, Hm, Hb. }
  assert (Ho : outcome s = inl (record_of s sg))
    by (unfold outcome; by rewrite Hn, Hm, Hb).
  assert (Hrec : records_of (number s) (done ++ [s])
                 = records_of (number s) done ++ [record_of s sg])
    by (by rewrite records_of_snoc, Ho, decide_True).
  assert (Hother : ∀ k, k ≠ number s →
                        entry_of k (done ++ [s]) = entry_of k done).
  { intros k Hk. apply entry_of_snoc_other. rewrite Ho. congruence. }
  fold (record_of s sg).
  destruct (dict_mem (number s) db) eqn:Hmem.
  - destruct (dict_get (number s) db) as [e|] eqn:He;
      [|apply dict_mem_get in He; congruence].
    split; [|split; [|split]]; cbn.
    + by rewrite log_of_snoc, Ho, app_nil_r.
    + by apply dict_set_NoDup.
    + intros k. destruct (decide (k = number s)) as [-> | Hk].
      * rewrite dict_get_set_eq. rewrite Hget in He.
        unfold entry_of in He |- *. rewrite Hrec, Hb in *.
        destruct (records_of (number s) done) as [|r rs]; [discriminate|].
        by injection He as <-.
      * rewrite dict_get_set_ne by done. rewrite Hother by done. apply Hget.
    + pose proof (total_settings_set_old (number s)
                    {| e_number := e_number e;
                       e_standard_symbol := e_standard_symbol e;
                       e_crystal_system := e_crystal_system e;
                       e_point_group := e_point_group e;
                       e_centrosymmetric := e_centrosymmetric e;
                       e_settings := e_settings e ++ [record_of s sg] |}
                    e db He) as Ht.
      cbn in Ht. rewrite length_app in Ht |- *. cbn in Ht |- *.
      unfold total_settings in *. lia.
  - rewrite dict_get_set_eq.
    split; [|split; [|split]]; cbn.
    + by rewrite log_of_snoc, Ho, app_nil_r.
    + by apply dict_set_NoDup, dict_set_NoDup.
    + intros k. destruct (decide (k = number s)) as [-> | Hk].
      * rewrite dict_get_set_eq.
        apply dict_mem_get in Hmem. rewrite Hget in Hmem.
        unfold entry_of in Hmem |- *. rewrite Hrec, Hb in *.
        by destruct (records_of (number s) done) as [|r rs].
      * rewrite !dict_get_set_ne by done. rewrite Hother by done. apply Hget.
    + apply dict_mem_get in Hmem.
      pose proof (total_settings_set_old (number s)
                    {| e_number := number s;
                       e_standard_symbol := hm sg_std;
                       e_crystal_system := crystal_system_str sg_std;
                       e_point_group := point_group_hm sg_std;
                       e_centrosymmetric := is_centrosymmetric sg_std;
                       e_settings := [] ++ [record_of s sg] |}
                    _ _ (dict_get_set_eq (number s)
                           {| e_number := number s;
                              e_standard_symbol := hm sg_std;
                              e_crystal_system := crystal_system_str sg_std;
                              e_point_group := point_group_hm sg_std;
                              e_centrosymmetric := is_centrosymmetric sg_std;
                              e_settings := [] |} db)) as Ht.
      rewrite (total_settings_set_new _ _ _ Hmem) in Ht.
      cbn in Ht. rewrite length_app. cbn.
      unfold total_settings in *. lia.
Qed.

Lemma run_inv (settings_list : list Setting) :
  loop_inv settings_list (run settings_list).
Proof.
  unfold Main.run. induction settings_list as [|s done IH] using rev_ind.
  - split; [reflexivity|]. split; [apply NoDup_nil_2|].
    split; reflexivity.
  - rewrite foldl_snoc. by apply process_inv.
Qed.

(** X18: The loop is a filter: the log holds, in input order, one line for each
    setting whose symbol gemmi does not resolve, resolves to another
    number, or whose number gemmi does not know; the database has distinct
    keys, and under key [k] gemmi's standard data of number [k] with, in
    input order, one record for each other setting of number [k]; a number
    without such a setting has no entry. *)
Theorem run_description :
  ∀ (settings_list : list Setting),
    (run settings_list).2 = log_of settings_list
    ∧ NoDup (run settings_list).1.*1
    ∧ ∀ k, dict_get k (run settings_list).1 = entry_of k settings_list.
Proof.
  intros L. destruct (run_inv L) as (Hlog & Hnd & Hget & _). by repeat split.
Qed.

(** X19: Every setting is accounted for once: the log lines and the setting
    records of the database together are as many as the settings read. *)
Theorem run_accounting :
  ∀ (settings_list : list Setting),
    (length (run settings_list).2 + total_settings (run settings_list).1
     = length settings_list)%nat.
Proof. intros L. by destruct (run_inv L) as (_ & _ & _ & Hacc). Qed.

Lemma elem_of_records_of (k : Z) (L : list Setting) (sd : SettingData) :
  sd ∈ records_of k L →
  ∃ s sg, s ∈ L ∧ number s = k
          ∧ find_spacegroup_by_name (symbol s) = Some sg
          ∧ sg_number sg = k
          ∧ is_Some (find_spacegroup_by_number k)
          ∧ sd = record_of s sg.
Proof.
  unfold records_of. rewrite list_elem_of_omap. intros (s & Hin & Hs).
  unfold outcome in Hs.
  destruct (find_spacegroup_by_name (symbol s)) as [sg|] eqn:Hn;
    [|discriminate].
  destruct (negb (sg_number sg =? number s)) eqn:Hm; [discriminate|].
  destruct (find_spacegroup_by_number (number s)) eqn:Hb; [|discriminate].
  destruct (decide (number s = k)) as [<- | ]; [|discriminate].
  injection Hs as <-. exists s, sg.
  apply negb_false_iff, Z.eqb_eq in Hm. by repeat split.
Qed.

(** X20: Every entry of the database is well formed: under key [k] it has the
    number [k], gemmi's standard data of number [k] and at least one
    setting record, and each of its records comes from a setting of
    number [k] whose symbol gemmi resolves to group [k]. *)
Theorem run_entries_well_formed :
  ∀ (settings_list : list Setting) (k : Z) (e : Entry),
    dict_get k (run settings_list).1 = Some e →
    e_number e = k
    ∧ e_settings e ≠ []
    ∧ (∃ sg_std, find_spacegroup_by_number k = Some sg_std
                 ∧ e_standard_symbol e = hm sg_std
                 ∧ e_crystal_system e = crystal_system_str sg_std
                 ∧ e_point_group e = point_group_hm sg_std
                 ∧ e_centrosymmetric e = is_centrosymmetric sg_std)
    ∧ ∀ sd, sd ∈ e_settings e →
            ∃ s sg, s ∈ settings_list ∧ number s = k
                    ∧ find_spacegroup_by_name (symbol s) = Some sg
                    ∧ sg_number sg = k
                    ∧ sd = record_of s sg.
Proof.
  intros L k e. destruct (run_inv L) as (_ & _ & Hget & _).
  rewrite Hget. unfold entry_of.
  destruct (records_of k L) as [|r rs] eqn:Hr; [discriminate|].
  destruct (find_spacegroup_by_number k) as [sg_std|] eqn:Hb;
    [|discriminate].
  intros [= <-]. cbn. split; [reflexivity|]. split; [discriminate|].
  split; [by exists sg_std|]. intros sd Hin. rewrite <- Hr in Hin.
  destruct (elem_of_records_of _ _ _ Hin) as (s & sg & ? & ? & ? & ? & _ & ?).
  by exists s, sg.
Qed.

(** X21: A setting whose symbol gemmi does not resolve is logged, and no record
    of the database carries its symbol. *)
Theorem run_unresolved_symbol :
  ∀ (settings_list : list Setting) (s : Setting),
    s ∈ settings_list →
    find_spacegroup_by_name (symbol s) = None →
    Unparsed (number s) (symbol s) (qualifier s) ∈ (run settings_list).2
    ∧ ∀ k e sd, dict_get k (run settings_list).1 = Some e →
                sd ∈ e_settings e → sd_symbol sd ≠ symbol s.
Proof.
  intros L s Hin Hn. destruct (run_inv L) as (Hlog & _ & Hget & _). split.
  - rewrite Hlog. unfold log_of. apply list_elem_of_omap.
    exists s. split; [exact Hin|]. unfold outcome. by rewrite Hn.
  - intros k e sd He Hsd. rewrite Hget in He. unfold entry_of in He.
    destruct (records_of k L) as [|r rs] eqn:Hr; [discriminate|].
    destruct (find_spacegroup_by_number k); [|discriminate].
    injection He as <-. cbn in Hsd. rewrite <- Hr in Hsd.
    destruct (elem_of_records_of _ _ _ Hsd)
      as (s' & sg & _ & _ & Hn' & _ & _ & ->).
    cbn. intros Heq. rewrite Heq in Hn'. congruence.
Qed.

End LoopFacts.

(** ** The sorted output *)

#[local] Instance key_le_total : Total key_le.
Proof. intros a b. unfold key_le. lia. Qed.

#[local] Instance key_le_trans : Transitive key_le.
Proof. intros a b c. unfold key_le. lia. Qed.

Lemma sorted_strict (l : list (Z * Entry)) :
  StronglySorted key_le l → NoDup l.*1 →
  StronglySorted (fun a b => a.1 < b.1) l.
Proof.
  induction 1 as [|a l Hs IH Hall]; intros Hnd; [constructor|].
  cbn in Hnd. apply NoDup_cons in Hnd as [Hni Hnd].
  constructor; [by apply IH|].
  rewrite Forall_forall in Hall |- *. intros b Hb.
  specialize (Hall b Hb). unfold key_le in Hall.
  assert (a.1 ≠ b.1); [|lia].
  intros Heq. apply Hni. rewrite Heq.
  apply list_elem_of_fmap. by exists b.
Qed.

(** X22: The database written out holds the entries of the loop, each once, in
    strictly ascending order of group number. *)
Theorem sorted_database_ascending :
  ∀ (find_spacegroup_by_name : string → option SpaceGroup)
    (find_spacegroup_by_number : Z → option SpaceGroup)
    (settings_list : list Setting),
    let database :=
      (run find_spacegroup_by_name find_spacegroup_by_number
           settings_list).1 in
    sorted_database database ≡ₚ database
    ∧ StronglySorted (fun a b => a.1 < b.1) (sorted_database database).
Proof.
  intros by_name by_number L database.
  assert (Hp : sorted_database database ≡ₚ database)
    by apply merge_sort_Permutation.
  split; [exact Hp|]. apply sorted_strict.
  - apply StronglySorted_merge_sort; apply _.
  - rewrite Hp. by destruct (run_inv by_name by_number L) as (_ & Hnd & _).
Qed.

(** ** The conditions of one setting *)

Lemma analyze_zone_not_nil (ops : list Op) (z : string) (m : Z) :
  analyze_zone ops z m ≠ Some [].
Proof.
  rewrite analyze_zone_unfold.
  destruct (degenerate _ _); [discriminate|].
  destruct (decide _) as [|Hne]; [discriminate|]. intros [= He].
  apply Hne, leibniz_equiv, elements_empty_inv, Permutation_nil_r.
  rewrite <- He. unfold sorted. symmetry. apply merge_sort_Permutation.
Qed.

Section Collect.
Context {V : Type}.
Variable g : string → option V.

(** The loop of lines 282-286 over any list of zone names. *)
Definition collect (zs : list string) (acc : list (string * V))
  : list (string * V) :=
  foldl (fun acc zone =>
           match g zone with Some v => dict_set zone v acc | None => acc end)
        acc zs.

Lemma collect_get (zs : list string) (acc : list (string * V)) (z : string) :
  dict_get z (collect zs acc)
  = match (if bool_decide (z ∈ zs) then g z else None) with
    | Some v => Some v
    | None => dict_get z acc
    end.
Proof.
  unfold collect. revert acc. induction zs as [|z' zs IH] using rev_ind;
    intros acc; [reflexivity|].
  rewrite foldl_snoc. destruct (decide (z = z')) as [-> | Hne].
  - rewrite (bool_decide_eq_true_2 (z' ∈ zs ++ [z']))
      by (apply elem_of_app; right; apply list_elem_of_here).
    destruct (g z') as [v|] eqn:Hg.
    + apply dict_get_set_eq.
    + rewrite IH. by destruct (bool_decide (z' ∈ zs)); rewrite ?Hg.
  - assert (Hb : bool_decide (z ∈ zs ++ [z']) = bool_decide (z ∈ zs)).
    { apply bool_decide_ext. rewrite elem_of_app, list_elem_of_singleton.
      tauto. }
    rewrite Hb. destruct (g z'); [rewrite dict_get_set_ne by done|];
      apply IH.
Qed.

End Collect.

Lemma foldl_pointwise {A B : Type} (f g : A → B → A) (l : list B) (a : A) :
  (∀ a b, f a b = g a b) → foldl f a l = foldl g a l.
Proof.
  intros He. revert a. induction l as [|b l IH]; intros a; [reflexivity|].
  cbn. by rewrite He, IH.
Qed.

(** X23: The conditions recorded for a setting are, zone by zone, what
    [analyze_zone] returns with the default window: a zone is a key exactly
    when [analyze_zone] returns a list, and its value is that list. *)
Theorem setting_conditions_lookup :
  ∀ (ops : list Op) (z : string),
    dict_get z (setting_conditions ops)
    = analyze_zone ops z default_max_index.
Proof.
  intros ops z.
  assert (Hc : setting_conditions ops
               = collect (fun zone => analyze_zone ops zone default_max_index)
                         zones []).
  { unfold setting_conditions, collect. apply foldl_pointwise.
    intros acc zone.
    destruct (analyze_zone ops zone default_max_index) as [[|c cs]|] eqn:Ha;
      try reflexivity.
    by apply analyze_zone_not_nil in Ha. }
  rewrite Hc, collect_get. case_bool_decide as Hz.
  - by destruct (analyze_zone ops z default_max_index).
  - cbn. symmetry. unfold analyze_zone.
    assert (He : test_refs z default_max_index = []).
    { unfold test_refs. unfold zones in Hz.
      repeat match goal with
        | |- context [String.eqb z ?s] =>
            rewrite (proj2 (String.eqb_neq z s))
              by (intros ->; apply Hz; rewrite !elem_of_cons; tauto)
        end.
      reflexivity. }
    by rewrite He.
Qed.

(** ** A small run *)

(** The inversion through the origin. *)
Definition inversion_op : Op :=
  mkOp ((- DEN, 0, 0), (0, - DEN, 0), (0, 0, - DEN)) (0, 0, 0).

(** A symmetry source that knows two groups. *)
Definition toy_P1 : SpaceGroup :=
  mkSpaceGroup 1 "P 1" "triclinic" "1" false [identity_op].
Definition toy_Pm1 : SpaceGroup :=
  mkSpaceGroup 2 "P -1" "triclinic" "-1" true [identity_op; inversion_op].

Definition toy_by_name (sym : string) : option SpaceGroup :=
  if (sym =? "P 1")%string then Some toy_P1
  else if (sym =? "P -1")%string then Some toy_Pm1
  else None.

Definition toy_by_number (n : Z) : option SpaceGroup :=
  if n =? 1 then Some toy_P1 else if n =? 2 then Some toy_Pm1 else None.

(** Two good settings, an unknown symbol and a symbol of another number. *)
Definition toy_settings : list Setting :=
  [ mkSetting 1 "P 1" ""; mkSetting 2 "P -1" "";
    mkSetting 3 "P 2" "b"; mkSetting 2 "P 1" "" ].

Definition toy_entry_1 : Entry :=
  mkEntry 1 "P 1" "triclinic" "1" false [mkSettingData "P 1" "" []].

Lemma run_entries_well_formed_witness :
  dict_get 1 (run toy_by_name toy_by_number toy_settings).1
  = Some toy_entry_1
  ∧ e_number toy_entry_1 = 1
  ∧ e_settings toy_entry_1 ≠ []
  ∧ (∃ sg_std, toy_by_number 1 = Some sg_std
               ∧ e_standard_symbol toy_entry_1 = hm sg_std
               ∧ e_crystal_system toy_entry_1 = crystal_system_str sg_std
               ∧ e_point_group toy_entry_1 = point_group_hm sg_std
               ∧ e_centrosymmetric toy_entry_1 = is_centrosymmetric sg_std)
  ∧ ∀ sd, sd ∈ e_settings toy_entry_1 →
          ∃ s sg, s ∈ toy_settings ∧ number s = 1
                  ∧ toy_by_name (symbol s) = Some sg
                  ∧ sg_number sg = 1
                  ∧ sd = record_of s sg.
Proof.
  assert (Hg : dict_get 1 (run toy_by_name toy_by_number toy_settings).1
               = Some toy_entry_1) by (vm_compute; reflexivity).
  split; [exact Hg|].
  exact (run_entries_well_formed toy_by_name toy_by_number toy_settings
           1 toy_entry_1 Hg).
Defined.

Lemma run_unresolved_symbol_witness :
  mkSetting 3 "P 2" "b" ∈ toy_settings
  ∧ toy_by_name (symbol (mkSetting 3 "P 2" "b")) = None
  ∧ Unparsed 3 "P 2" "b" ∈ (run toy_by_name toy_by_number toy_settings).2
  ∧ ∀ k e sd,
      dict_get k (run toy_by_name toy_by_number toy_settings).1 = Some e →
      sd ∈ e_settings e → sd_symbol sd ≠ "P 2".
Proof.
  assert (Hin : mkSetting 3 "P 2" "b" ∈ toy_settings)
    by (unfold toy_settings; rewrite !elem_of_cons; tauto).
  assert (Hn : toy_by_name (symbol (mkSetting 3 "P 2" "b")) = None)
    by reflexivity.
  split; [exact Hin|]. split; [exact Hn|].
  exact (run_unresolved_symbol toy_by_name toy_by_number toy_settings
           (mkSetting 3 "P 2" "b") Hin Hn).
Defined.

End Main.
